(** * cities_light: normalisation, display names, time zones, search and slugs

    A shallow embedding of [cities_light/abstract_models.py] and of the
    change-list hook of [cities_light/admin.py].

    Python text is a sequence of Unicode code points ([list N]).  The
    third-party packages the module calls ([unidecode], [re], [pytz],
    [autoslug] and the Django ORM) are not part of the repository: their
    data tables are parameters of the development and their control flow
    is written out next to the call sites that use it. *)

From Stdlib Require Import NArith ZArith List Bool Ascii String Lia.
From stdpp Require Import gmap strings.

Local Open Scope N_scope.

(** ** Text *)

Abbreviation text := (list N).

Fixpoint txt (s : string) : text :=
  match s with
  | EmptyString => []
  | String a s' => N_of_ascii a :: txt s'
  end.

(** ASCII character classes, on code points. *)
Definition is_ascii (c : N) : bool := c <? 128.
Definition ascii_upper (c : N) : bool := (65 <=? c) && (c <=? 90).
Definition ascii_lower (c : N) : bool := (97 <=? c) && (c <=? 122).
Definition ascii_digit (c : N) : bool := (48 <=? c) && (c <=? 57).
Definition ascii_alnum (c : N) : bool :=
  ascii_upper c || ascii_lower c || ascii_digit c.
Definition ascii_to_lower (c : N) : N := if ascii_upper c then c + 32 else c.

Definition underscore : N := 95.
Definition space : N := 32.

(** ** Exceptions

    [NoTranslationError] is what reading a translated field raises when
    the instance has no translation in the active language. *)

Inductive exn : Type :=
| DoesNotExist
| AttributeError
| UnknownTimeZoneError
| IntegrityError
| NoTranslationError.

Inductive result (A : Type) : Type :=
| Ok (a : A)
| Raise (e : exn).
Arguments Ok {A} a.
Arguments Raise {A} e.

#[global] Instance result_ret : MRet result := fun A a => Ok a.

#[global] Instance result_bind : MBind result := fun A B k m =>
  match m with
  | Ok a => k a
  | Raise e => Raise e
  end.

#[global] Instance result_fmap : FMap result := fun A B f m =>
  match m with
  | Ok a => Ok (f a)
  | Raise e => Raise e
  end.

(** [try: m except: h] with a bare [except]. *)
Definition try_except {A} (m : result A) (h : result A) : result A :=
  match m with
  | Ok a => Ok a
  | Raise _ => h
  end.

(** [try: m except (e1, ...): h]. *)
Definition try_except_only {A} (caught : exn -> bool)
           (m : result A) (h : result A) : result A :=
  match m with
  | Ok a => Ok a
  | Raise e => if caught e then h else Raise e
  end.

(** ** Regular expressions of the shape [[class]+] *)

Inductive regex : Type :=
| ClassPlus (cls : N -> bool).

(** [re.sub]: every maximal run of characters of the class is replaced by
    one copy of [repl]; [in_run] tells whether the previous character
    belonged to the run being replaced. *)
Fixpoint sub_runs (cls : N -> bool) (repl : text) (in_run : bool)
         (s : text) : text :=
  match s with
  | [] => []
  | c :: s' =>
      if cls c
      then (if in_run then [] else repl) ++ sub_runs cls repl true s'
      else c :: sub_runs cls repl false s'
  end.

Definition re_sub (r : regex) (repl : text) (s : text) : text :=
  match r with
  | ClassPlus cls => sub_runs cls repl false s
  end.

(** ** Normaliser *)

(** The Unicode data the module relies on: the alphanumeric property that
    [\w] consults under [re.UNICODE], the lower-case mapping of [str.lower]
    and the transliteration tables of [unidecode]; each is consulted for
    code points from 128 on only. *)
Record unicode_data : Type := {
  uni_isalnum : N -> bool;
  uni_lower : N -> text;
  unidecode_table : N -> text
}.

(** Every entry of the transliteration tables is ASCII text. *)
Definition ascii_tables (U : unicode_data) : Prop :=
  forall c d, In d (unidecode_table U c) -> d < 128.

Section Normalizer.

Variable U : unicode_data.

Definition py_isalnum (c : N) : bool :=
  if is_ascii c then ascii_alnum c else uni_isalnum U c.

(** [\w] *)
Definition re_word (c : N) : bool := py_isalnum c || (c =? underscore).

(** [ALPHA_REGEXP = re.compile('[\W_]+', re.UNICODE)] *)
Definition ALPHA_class (c : N) : bool := negb (re_word c) || (c =? underscore).
Definition ALPHA_REGEXP : regex := ClassPlus ALPHA_class.

(** [unidecode]: ASCII is passed through, code points above 0xEFFFF are
    dropped, the others are looked up in the tables. *)
Definition unidecode_char (c : N) : text :=
  if c <? 128 then [c]
  else if 983039 <? c then []
  else unidecode_table U c.

Definition unidecode (value : text) : text := flat_map unidecode_char value.

(** [force_text] leaves text as it is. *)
Definition force_text (value : text) : text := value.

Definition to_ascii (value : text) : text := force_text (unidecode value).

(** [str.lower] *)
Definition lower_char (c : N) : text :=
  if is_ascii c then [ascii_to_lower c] else uni_lower U c.

Definition lower (s : text) : text := flat_map lower_char s.

Definition to_search (value : text) : text :=
  lower (re_sub ALPHA_REGEXP [] (to_ascii value)).

(** The search key as the specification words it: transliterate, keep
    the ASCII letters and digits, lower-case them. *)
Definition to_search_key_spec (value : text) : text :=
  map ascii_to_lower (List.filter ascii_alnum (to_ascii value)).

End Normalizer.

(** A search key: ASCII lower-case letters and digits only. *)
Definition search_char (c : N) : bool := ascii_lower c || ascii_digit c.
Definition is_search_key (s : text) : bool := forallb search_char s.

(** Text made of ASCII letters, digits and spaces. *)
Definition plain_name (name : text) : bool :=
  forallb (fun c => ascii_alnum c || (c =? space)) name.

(** A small instance of the Unicode data (a few Latin-1 letters), to run
    the definitions on. *)
Definition latin_sample : unicode_data := {|
  uni_isalnum := fun c => (192 <=? c) && (c <=? 255) && negb (c =? 215) && negb (c =? 247);
  uni_lower := fun c => if (192 <=? c) && (c <=? 222) && negb (c =? 215) then [c + 32] else [c];
  unidecode_table := fun c =>
    if c =? 201 then txt "E" else if c =? 206 then txt "I"
    else if c =? 231 then txt "c" else if c =? 233 then txt "e"
    else if c =? 223 then txt "ss" else []
|}.

(** ** Records of the three models

    Only the columns the functions below read or write are kept.  A
    translated field ([name], [display_name]) stands for its value in the
    active language; the [translated] flag of a row tells whether a
    translation in that language is loaded or can be loaded. *)

Record Country : Type := {
  country_translated : bool;
  country_name : text;
  country_name_ascii : text;
  country_slug : text
}.

Record Region : Type := {
  region_translated : bool;
  region_name : text;
  region_display_name : option text;
  region_name_ascii : text;
  region_slug : text;
  region_country_id : Z
}.

Record City : Type := {
  city_translated : bool;
  city_name : text;
  city_display_name : option text;
  city_name_ascii : text;
  city_slug : text;
  city_search_names : text;
  city_region_id : option Z;
  city_country_id : Z;
  city_timezone : option text
}.

(** The tables, by primary key. *)
Record database : Type := {
  countries : gmap Z Country;
  regions : gmap Z Region;
  cities : gmap Z City
}.

(** Following a foreign key: the related row, or [DoesNotExist]. *)
Definition fetch {A} (table : gmap Z A) (pk : Z) : result A :=
  match table !! pk with
  | Some row => Ok row
  | None => Raise DoesNotExist
  end.

(** Truth value of an id attribute in [if self.region_id:]. *)
Definition truthy_id (i : option Z) : bool :=
  match i with
  | Some n => negb (n =? 0)%Z
  | None => false
  end.

(** Truth value of a text. *)
Definition truthy_text (t : text) : bool :=
  match t with
  | [] => false
  | _ :: _ => true
  end.

(** ['%s, %s' % (a, b)] and ['%s, %s, %s' % (a, b, c)] *)
Definition fmt2 (a b : text) : text := a ++ txt ", " ++ b.
Definition fmt3 (a b c : text) : text := a ++ txt ", " ++ b ++ txt ", " ++ c.

(** ** Display names *)

(** Reading a translated field of an instance: without a translation in
    the active language the access raises. *)
Definition translated_field (loaded : bool) (value : text) : result text :=
  if loaded then Ok value else Raise NoTranslationError.

(** [.name] on a country, a region, a city. *)
Definition read_country_name (k : Country) : result text :=
  translated_field (country_translated k) (country_name k).

Definition read_region_name (r : Region) : result text :=
  translated_field (region_translated r) (region_name r).

Definition read_city_name (c : City) : result text :=
  translated_field (city_translated c) (city_name c).

Module AbstractRegion.

Definition country (db : database) (self : Region) : result Country :=
  fetch (countries db) (region_country_id self).

Definition get_display_name (db : database) (self : Region) : result text :=
  n ← read_region_name self;
  k ← country db self;
  kn ← read_country_name k;
  mret (fmt2 n kn).

End AbstractRegion.

Module AbstractCity.

Definition country (db : database) (self : City) : result Country :=
  fetch (countries db) (city_country_id self).

(** [self.region]: [None] when the column is null. *)
Definition region (db : database) (self : City) : result (option Region) :=
  match city_region_id self with
  | Some pk => r ← fetch (regions db) pk; mret (Some r)
  | None => Ok None
  end.

(** [.name] on what [self.region] gave. *)
Definition name_of (r : option Region) : result text :=
  match r with
  | Some r => read_region_name r
  | None => Raise AttributeError
  end.

Definition get_display_name (db : database) (self : City) : result text :=
  if truthy_id (city_region_id self) then
    try_except
      (n ← read_city_name self;
       r ← region db self;
       rn ← name_of r;
       k ← country db self;
       kn ← read_country_name k;
       mret (fmt3 n rn kn))
      (n ← read_city_name self;
       k ← country db self;
       kn ← read_country_name k;
       mret (fmt2 n kn))
  else
    n ← read_city_name self;
    k ← country db self;
    kn ← read_country_name k;
    mret (fmt2 n kn).

End AbstractCity.

(** ** String rendering *)

Inductive entity : Type :=
| ECountry (c : Country)
| ERegion (r : Region)
| ECity (c : City).

Definition entity_name (e : entity) : text :=
  match e with
  | ECountry c => country_name c
  | ERegion r => region_name r
  | ECity c => city_name c
  end.

(** [getattr(self, 'display_name', None)]: a country has no such
    attribute. *)
Definition getattr_display_name (e : entity) : option text :=
  match e with
  | ECountry _ => None
  | ERegion r => region_display_name r
  | ECity c => city_display_name c
  end.

Module Base.

Definition __str__ (self : entity) : text :=
  match getattr_display_name self with
  | Some display_name =>
      if truthy_text display_name then display_name else entity_name self
  | None => entity_name self
  end.

End Base.

Module AbstractCountry.

Definition __str__ (self : Country) : text := country_name self.

End AbstractCountry.


(** ** Time zones *)

Record tzinfo : Type := { zone : text }.

(** The zone database of [pytz] and the Django setting the module reads. *)
Record tz_env : Type := {
  tzdb : text -> option tzinfo;
  TIME_ZONE : text
}.

Section Timezone.

Variable E : tz_env.

(** [pytz.timezone]: a zone that is not a string has no [upper]
    ([AttributeError]); an unknown name is [UnknownTimeZoneError]. *)
Definition pytz_timezone (name : option text) : result tzinfo :=
  match name with
  | None => Raise AttributeError
  | Some n =>
      match tzdb E n with
      | Some tz => Ok tz
      | None => Raise UnknownTimeZoneError
      end
  end.

Definition tz_caught (e : exn) : bool :=
  match e with
  | UnknownTimeZoneError | AttributeError => true
  | _ => false
  end.

Definition get_timezone_info (self : City) : result tzinfo :=
  try_except_only tz_caught
    (pytz_timezone (city_timezone self))
    (pytz_timezone (Some (TIME_ZONE E))).

End Timezone.

(** ** Search *)

Fixpoint is_prefix (p s : text) : bool :=
  match p, s with
  | [], _ => true
  | _ :: _, [] => false
  | a :: p', b :: s' => (a =? b) && is_prefix p' s'
  end.

Fixpoint contains (needle hay : text) : bool :=
  is_prefix needle hay
  || match hay with
     | [] => false
     | _ :: hay' => contains needle hay'
     end.

(** "is a substring of", as a proposition. *)
Definition substring (k s : text) : Prop :=
  exists pre post, s = pre ++ k ++ post.

(** Django's [icontains]: the column contains the prepared value, letter
    case ignored. *)
Module IContains.

Definition get_prep_lookup (value : text) : text := value.

Definition holds (U : unicode_data) (rhs column : text) : bool :=
  contains (lower U rhs) (lower U column).

End IContains.

Module ToSearchIContainsLookup.

Definition get_prep_lookup (U : unicode_data) (value : text) : text :=
  let value := IContains.get_prep_lookup value in
  to_search U value.

Definition holds (U : unicode_data) (value column : text) : bool :=
  IContains.holds U (get_prep_lookup U value) column.

End ToSearchIContainsLookup.

(** The comparison a [search_names__icontains] filter makes. *)
Definition search_matches (U : unicode_data) (query stored : text) : bool :=
  ToSearchIContainsLookup.holds U query stored.

Module CityChangeList.

(** The request parameters as the hook of [get_queryset] rebinds them,
    before it hands over to the parent class. *)
Definition get_queryset (U : unicode_data) (GET : gmap string text)
  : gmap string text :=
  match GET !! "q"%string with
  | Some q => <["q"%string := to_search U q]> GET
  | None => GET
  end.

End CityChangeList.

(** ** Slugs *)

Fixpoint uint_digits (d : Decimal.uint) : text :=
  match d with
  | Decimal.Nil => []
  | Decimal.D0 d => 48 :: uint_digits d
  | Decimal.D1 d => 49 :: uint_digits d
  | Decimal.D2 d => 50 :: uint_digits d
  | Decimal.D3 d => 51 :: uint_digits d
  | Decimal.D4 d => 52 :: uint_digits d
  | Decimal.D5 d => 53 :: uint_digits d
  | Decimal.D6 d => 54 :: uint_digits d
  | Decimal.D7 d => 55 :: uint_digits d
  | Decimal.D8 d => 56 :: uint_digits d
  | Decimal.D9 d => 57 :: uint_digits d
  end.

(** ['%d' % n] *)
Definition decimal (n : N) : text := uint_digits (N.to_uint n).

(** The options of an [autoslug.AutoSlugField]. *)
Record AutoSlugField : Type := {
  populate_from : option string;
  unique : bool;
  unique_with : list string;
  always_update : bool;
  max_length : nat;
  index_sep : text;
  blank : bool
}.

(** [autoslug.AutoSlugField(populate_from='name_ascii')]: every other
    option keeps its default. *)
Definition Base_slug : AutoSlugField := {|
  populate_from := Some "name_ascii"%string;
  unique := false;
  unique_with := [];
  always_update := false;
  max_length := 50;
  index_sep := txt "-";
  blank := false
|}.

(** The same declaration with [unique=True], for comparison. *)
Definition unique_slug : AutoSlugField := {|
  populate_from := Some "name_ascii"%string;
  unique := true;
  unique_with := [];
  always_update := false;
  max_length := 50;
  index_sep := txt "-";
  blank := false
|}.

Definition crop_slug (field : AutoSlugField) (slug : text) : text :=
  firstn (max_length field) slug.

(** Modelled from the spec: the allocator of section 4.2, which probes
    [base], [base-2], [base-3], ... and returns the first candidate that is
    unused; src/ holds the field declaration only.  [rivals] is the
    existence check, [fuel] bounds the number of probes ([None]: no free
    candidate was reached). *)
Fixpoint probe (fuel : nat) (field : AutoSlugField) (rivals : text -> bool)
         (original : text) (index : N) (slug : text) : option text :=
  match fuel with
  | O => None
  | S fuel' =>
      if rivals slug then
        let index := index + 1 in
        let tail_length := (length (index_sep field) + length (decimal index))%nat in
        let original :=
          if (max_length field <? length original + tail_length)%nat
          then firstn (max_length field - tail_length) original
          else original in
        probe fuel' field rivals original index
              (original ++ index_sep field ++ decimal index)
      else Some slug
  end.

Definition generate_unique_slug (fuel : nat) (field : AutoSlugField)
           (rivals : text -> bool) (slug : text) : option text :=
  let original := crop_slug field slug in
  probe fuel field rivals original 1 original.

(** [AutoSlugField.pre_save]: [current] is the slug the instance carries,
    [populated] the value of the [populate_from] attribute.  When the
    value, or what is left of it once slugified, is empty, the name of the
    model stands in (the field not being blank); uniqueness is looked
    after only when the field asks for it. *)
Definition pre_save (fuel : nat) (field : AutoSlugField)
           (slugify : text -> text) (rivals : text -> bool)
           (module_name current populated : text) : option text :=
  let value :=
    if always_update field
       || (bool_decide (is_Some (populate_from field)) && negb (truthy_text current))
    then populated else current in
  let slugified := if truthy_text value then slugify value else [] in
  let slug :=
    if truthy_text slugified then slugified
    else if negb (blank field) then module_name else [] in
  if truthy_text slug then
    let slug := crop_slug field slug in
    if unique field || bool_decide (unique_with field <> [])
    then generate_unique_slug fuel field rivals slug
    else Some slug
  else Some slug.

(** The slug that [pre_save] comes to for [Base.slug] (lemma
    [Base_slug_pre_save]). *)
Definition Base_slug_value (slugify : text -> text)
           (module_name current populated : text) : text :=
  let value := if truthy_text current then current else populated in
  let slugified := if truthy_text value then slugify value else [] in
  firstn 50 (if truthy_text slugified then slugified else module_name).

(** ** Writes

    [Model.save] runs [pre_save] on the slug field and then writes the row;
    the database rejects the write ([IntegrityError]) when it breaks a
    [unique_together] declaration.  A null column never takes part in such
    a conflict.  Constraints that do not mention the slug are left out. *)

Definition set_country_slug (c : Country) (s : text) : Country :=
  {| country_translated := country_translated c;
     country_name := country_name c;
     country_name_ascii := country_name_ascii c;
     country_slug := s |}.

Definition set_region_slug (r : Region) (s : text) : Region :=
  {| region_translated := region_translated r;
     region_name := region_name r;
     region_display_name := region_display_name r;
     region_name_ascii := region_name_ascii r;
     region_slug := s;
     region_country_id := region_country_id r |}.

Definition set_city_slug (c : City) (s : text) : City :=
  {| city_translated := city_translated c;
     city_name := city_name c;
     city_display_name := city_display_name c;
     city_name_ascii := city_name_ascii c;
     city_slug := s;
     city_search_names := city_search_names c;
     city_region_id := city_region_id c;
     city_country_id := city_country_id c;
     city_timezone := city_timezone c |}.

(** Another row of the table carries the slug. *)
Definition slug_in_use {A} (slug_of : A -> text) (table : gmap Z A)
           (pk : Z) (s : text) : bool :=
  bool_decide (map_Exists (fun pk' row => pk' <> pk /\ slug_of row = s) table).

(** [AbstractRegion.Meta.unique_together = (('country', 'slug'))] *)
Definition region_conflict (table : gmap Z Region) (pk : Z) (r : Region) : bool :=
  bool_decide (map_Exists (fun pk' r' =>
    pk' <> pk /\ region_country_id r' = region_country_id r
    /\ region_slug r' = region_slug r) table).

(** [AbstractCity.Meta.unique_together = (('region', 'slug'))] *)
Definition city_conflict (table : gmap Z City) (pk : Z) (c : City) : bool :=
  bool_decide (map_Exists (fun pk' c' =>
    pk' <> pk /\ is_Some (city_region_id c)
    /\ city_region_id c' = city_region_id c
    /\ city_slug c' = city_slug c) table).

Definition city_region_is (pk : Z) (c : City) : bool :=
  bool_decide (city_region_id c = Some pk).

(** The city is removed along with the country [pk]: it lies in it, or in
    one of its regions. *)
Definition city_under_country (rs : gmap Z Region) (pk : Z) (c : City) : bool :=
  bool_decide (city_country_id c = pk)
  || match city_region_id c with
     | Some rid =>
         match rs !! rid with
         | Some r => bool_decide (region_country_id r = pk)
         | None => false
         end
     | None => false
     end.

Inductive write : Type :=
| SaveCountry (pk : Z) (c : Country)
| SaveRegion (pk : Z) (r : Region)
| SaveCity (pk : Z) (c : City)
| DeleteCountry (pk : Z)
| DeleteRegion (pk : Z)
| DeleteCity (pk : Z).

Section Writes.

(** The slugify callable and the bound on probes (see [probe]). *)
Variable slugify : text -> text.
Variable fuel : nat.

Definition save_country (db : database) (pk : Z) (c : Country)
  : option (result database) :=
  s ← pre_save fuel Base_slug slugify
        (slug_in_use country_slug (countries db) pk)
        (txt "country") (country_slug c) (country_name_ascii c);
  Some (Ok {| countries := <[pk := set_country_slug c s]> (countries db);
              regions := regions db;
              cities := cities db |}).

Definition save_region (db : database) (pk : Z) (r : Region)
  : option (result database) :=
  s ← pre_save fuel Base_slug slugify
        (slug_in_use region_slug (regions db) pk)
        (txt "region") (region_slug r) (region_name_ascii r);
  let r' := set_region_slug r s in
  Some (if region_conflict (regions db) pk r' then Raise IntegrityError
        else Ok {| countries := countries db;
                   regions := <[pk := r']> (regions db);
                   cities := cities db |}).

Definition save_city (db : database) (pk : Z) (c : City)
  : option (result database) :=
  s ← pre_save fuel Base_slug slugify
        (slug_in_use city_slug (cities db) pk)
        (txt "city") (city_slug c) (city_name_ascii c);
  let c' := set_city_slug c s in
  Some (if city_conflict (cities db) pk c' then Raise IntegrityError
        else Ok {| countries := countries db;
                   regions := regions db;
                   cities := <[pk := c']> (cities db) |}).

(** Deletions cascade along [on_delete=models.CASCADE]. *)
Definition delete_city (db : database) (pk : Z) : database :=
  {| countries := countries db;
     regions := regions db;
     cities := delete pk (cities db) |}.

Definition delete_region (db : database) (pk : Z) : database :=
  {| countries := countries db;
     regions := delete pk (regions db);
     cities := filter (fun kc => city_region_is pk kc.2 = false) (cities db) |}.

Definition delete_country (db : database) (pk : Z) : database :=
  {| countries := delete pk (countries db);
     regions := filter (fun kr => region_country_id kr.2 <> pk) (regions db);
     cities := filter (fun kc => city_under_country (regions db) pk kc.2 = false)
                      (cities db) |}.

Definition apply_write (db : database) (w : write) : option (result database) :=
  match w with
  | SaveCountry pk c => save_country db pk c
  | SaveRegion pk r => save_region db pk r
  | SaveCity pk c => save_city db pk c
  | DeleteCountry pk => Some (Ok (delete_country db pk))
  | DeleteRegion pk => Some (Ok (delete_region db pk))
  | DeleteCity pk => Some (Ok (delete_city db pk))
  end.

End Writes.

Definition empty_db : database :=
  {| countries := ∅; regions := ∅; cities := ∅ |}.

(** Uniqueness of slugs, scope by scope. *)
Definition country_slugs_unique (db : database) : Prop :=
  forall pk1 pk2 c1 c2,
    countries db !! pk1 = Some c1 -> countries db !! pk2 = Some c2 ->
    country_slug c1 = country_slug c2 -> pk1 = pk2.

Definition region_slugs_unique (db : database) : Prop :=
  forall pk1 pk2 r1 r2,
    regions db !! pk1 = Some r1 -> regions db !! pk2 = Some r2 ->
    region_country_id r1 = region_country_id r2 ->
    region_slug r1 = region_slug r2 -> pk1 = pk2.

Definition city_slugs_unique (db : database) : Prop :=
  forall pk1 pk2 c1 c2 rid,
    cities db !! pk1 = Some c1 -> cities db !! pk2 = Some c2 ->
    city_region_id c1 = Some rid -> city_region_id c2 = Some rid ->
    city_slug c1 = city_slug c2 -> pk1 = pk2.

(** The invariant as the specification words it: all three scopes. *)
Definition slugs_unique_spec (db : database) : Prop :=
  country_slugs_unique db /\ region_slugs_unique db /\ city_slugs_unique db.

(** A stand-in for the slugify callable on plain ASCII names: lower-case
    letters and digits, every run of other characters a single hyphen. *)
Definition plain_slugify (s : text) : text :=
  map ascii_to_lower
      (re_sub (ClassPlus (fun c => negb (ascii_alnum c))) (txt "-") s).

(** ** Sample data

    Concrete rows and tables, to run the definitions on. *)

(** The data of the specification's example: Paris, in the region
    Île-de-France (key 11) of France (key 1). *)
Definition france : Country :=
  {| country_translated := true;
     country_name := txt "France";
     country_name_ascii := txt "France";
     country_slug := txt "france" |}.

Definition ile_de_france (pk : Z) : Region :=
  {| region_translated := true;
     region_name := [206] ++ txt "le-de-France";
     region_display_name := Some ([206] ++ txt "le-de-France, France");
     region_name_ascii := txt "Ile-de-France";
     region_slug := txt "ile-de-france";
     region_country_id := pk |}.

Definition paris (region_id : option Z) : City :=
  {| city_translated := true;
     city_name := txt "Paris";
     city_display_name := Some (txt "Paris, France");
     city_name_ascii := txt "Paris";
     city_slug := txt "paris";
     city_search_names := txt "parisfrance";
     city_region_id := region_id;
     city_country_id := 1;
     city_timezone := Some (txt "Europe/Paris") |}.

Definition france_db (region_pk : Z) : database :=
  {| countries := {[ 1%Z := france ]};
     regions := {[ region_pk := ile_de_france 1 ]};
     cities := ∅ |}.

(** A region whose display name has not been filled in. *)
Definition bavaria : Region :=
  {| region_translated := true;
     region_name := txt "Bavaria";
     region_display_name := Some [];
     region_name_ascii := txt "Bavaria";
     region_slug := txt "bavaria";
     region_country_id := 2 |}.

Definition zone_named (n : text) : tzinfo := {| zone := n |}.

(** A zone database with three names, and UTC as the configured zone. *)
Definition sample_tz : tz_env :=
  {| tzdb := fun n =>
       if bool_decide (n ∈ [txt "UTC"; txt "Europe/Paris"; txt "Asia/Tbilisi"])
       then Some (zone_named n) else None;
     TIME_ZONE := txt "UTC" |}.

Definition with_timezone (c : City) (tz : option text) : City :=
  {| city_translated := city_translated c;
     city_name := city_name c;
     city_display_name := city_display_name c;
     city_name_ascii := city_name_ascii c;
     city_slug := city_slug c;
     city_search_names := city_search_names c;
     city_region_id := city_region_id c;
     city_country_id := city_country_id c;
     city_timezone := tz |}.

(** Two countries called Georgia. *)
Definition georgia (slug : text) : Country :=
  {| country_translated := true;
     country_name := txt "Georgia";
     country_name_ascii := txt "Georgia";
     country_slug := slug |}.

Definition georgia_db : database :=
  {| countries := {[ 1%Z := georgia (txt "georgia") ]};
     regions := ∅;
     cities := ∅ |}.

Definition two_georgias : database :=
  {| countries := <[ 2%Z := georgia (txt "georgia") ]>
                    {[ 1%Z := georgia (txt "georgia") ]};
     regions := ∅;
     cities := ∅ |}.

Definition france_and_bavaria : database :=
  {| countries := {[ 1%Z := france ]};
     regions := <[ 12%Z := bavaria ]> {[ 11%Z := ile_de_france 1 ]};
     cities := ∅ |}.

(** The same region and the same country without a translation in the
    active language. *)
Definition ile_de_france_untranslated (pk : Z) : Region :=
  {| region_translated := false;
     region_name := region_name (ile_de_france pk);
     region_display_name := None;
     region_name_ascii := region_name_ascii (ile_de_france pk);
     region_slug := region_slug (ile_de_france pk);
     region_country_id := pk |}.

Definition france_untranslated : Country :=
  {| country_translated := false;
     country_name := country_name france;
     country_name_ascii := country_name_ascii france;
     country_slug := country_slug france |}.

Definition untranslated_region_db : database :=
  {| countries := {[ 1%Z := france ]};
     regions := {[ 11%Z := ile_de_france_untranslated 1 ]};
     cities := ∅ |}.

Definition untranslated_country_db : database :=
  {| countries := {[ 1%Z := france_untranslated ]};
     regions := ∅;
     cities := ∅ |}.

(** ** Referential integrity and runs of writes *)

(** Every foreign key of a stored row leads to a stored row. *)
Definition refs_ok (db : database) : Prop :=
  (forall pk r, regions db !! pk = Some r ->
                is_Some (countries db !! region_country_id r))
  /\ (forall pk c, cities db !! pk = Some c ->
                   is_Some (countries db !! city_country_id c))
  /\ (forall pk c rid, cities db !! pk = Some c -> city_region_id c = Some rid ->
                       is_Some (regions db !! rid)).

(** Every stored row has a translation in the active language. *)
Definition translations_ok (db : database) : Prop :=
  (forall pk k, countries db !! pk = Some k -> country_translated k = true)
  /\ (forall pk r, regions db !! pk = Some r -> region_translated r = true)
  /\ (forall pk c, cities db !! pk = Some c -> city_translated c = true).

(** Writes made one after the other; the first one that is turned down
    ends the run with its error. *)
Fixpoint run_writes (slugify : text -> text) (fuel : nat) (db : database)
         (ws : list write) : option (result database) :=
  match ws with
  | [] => Some (Ok db)
  | w :: ws' =>
      match apply_write slugify fuel db w with
      | Some (Ok db') => run_writes slugify fuel db' ws'
      | other => other
      end
  end.

(** A query without a single ASCII letter or digit: empty, or blanks and
    punctuation only. *)
Definition blank_query (q : text) : bool :=
  forallb (fun c => is_ascii c && negb (ascii_alnum c)) q.

(** ASCII text. *)
Definition ascii_text (s : text) : bool := forallb is_ascii s.

(** A zone database that does not know the configured zone. *)
Definition broken_tz : tz_env :=
  {| tzdb := tzdb sample_tz; TIME_ZONE := txt "Mars/Olympus" |}.

(** France, its region and its capital, all stored. *)
Definition paris_db : database :=
  {| countries := {[ 1%Z := france ]};
     regions := {[ 11%Z := ile_de_france 1 ]};
     cities := {[ 5%Z := paris (Some 11%Z) ]} |}.

(** * Properties *)

(** Case analysis on the comparisons of code points in the goal. *)
Ltac code_points :=
  repeat match goal with
         | |- context [(?a <? ?b)%N] => destruct (N.ltb_spec a b)
         | |- context [(?a <=? ?b)%N] => destruct (N.leb_spec a b)
         | |- context [(?a =? ?b)%N] => destruct (N.eqb_spec a b)
         end;
  simpl; intros; simpl in *;
  try reflexivity; try discriminate; try lia; try congruence.

(** ** Normaliser *)

Example to_ascii_republique :
  to_ascii latin_sample (txt "R" ++ [233] ++ txt "publique Fran" ++ [231] ++ txt "aise")
  = txt "Republique Francaise".
Proof. reflexivity. Qed.

Example to_search_paris_texas :
  to_search latin_sample (txt "Paris Texas") = txt "paristexas".
Proof. reflexivity. Qed.

Example to_search_ile_de_france :
  to_search latin_sample ([206] ++ txt "le-de-France") = txt "iledefrance".
Proof. reflexivity. Qed.

Lemma latin_sample_ascii : ascii_tables latin_sample.
Proof.
  intros c d. unfold latin_sample; simpl.
  repeat match goal with
         | |- context [(c =? ?k)%N] => destruct (N.eqb_spec c k)
         end; simpl; intros Hin;
    repeat (destruct Hin as [<- | Hin]; [lia |]); destruct Hin.
Qed.

(** With the empty replacement, [re.sub] on a class keeps exactly the
    characters outside the class. *)
Lemma sub_runs_empty cls in_run s :
  sub_runs cls [] in_run s = List.filter (fun c => negb (cls c)) s.
Proof.
  revert in_run. induction s as [| c s IH]; intros in_run; simpl.
  - reflexivity.
  - destruct (cls c); simpl.
    + destruct in_run; simpl; apply IH.
    + f_equal. apply IH.
Qed.

Lemma ALPHA_class_ascii U c :
  c < 128 -> negb (ALPHA_class U c) = ascii_alnum c.
Proof.
  intros Hc. unfold ALPHA_class, re_word, py_isalnum, is_ascii.
  destruct (N.ltb_spec c 128); [| lia].
  unfold ascii_alnum, ascii_upper, ascii_lower, ascii_digit, underscore.
  code_points.
Qed.

Lemma unidecode_char_ascii U c :
  ascii_tables U -> Forall (fun d => d < 128) (unidecode_char U c).
Proof.
  intros HU. unfold unidecode_char.
  destruct (N.ltb_spec c 128).
  - constructor; [assumption | constructor].
  - destruct (983039 <? c); [constructor |].
    apply List.Forall_forall. intros d Hd. exact (HU c d Hd).
Qed.

Lemma to_ascii_is_ascii U v :
  ascii_tables U -> Forall (fun d => d < 128) (to_ascii U v).
Proof.
  intros HU. unfold to_ascii, force_text, unidecode.
  induction v as [| c v IH]; simpl.
  - constructor.
  - apply Forall_app. split; [apply unidecode_char_ascii; assumption | exact IH].
Qed.

(** [unidecode] leaves ASCII text alone. *)
Lemma to_ascii_fixed U s :
  Forall (fun d => d < 128) s -> to_ascii U s = s.
Proof.
  unfold to_ascii, force_text, unidecode.
  induction 1 as [| c s Hc _ IH]; simpl.
  - reflexivity.
  - unfold unidecode_char at 1. destruct (N.ltb_spec c 128); [| lia].
    simpl. f_equal. exact IH.
Qed.

Lemma lower_ascii U s :
  Forall (fun d => d < 128) s -> lower U s = map ascii_to_lower s.
Proof.
  unfold lower.
  induction 1 as [| c s Hc _ IH]; simpl.
  - reflexivity.
  - unfold lower_char at 1, is_ascii. destruct (N.ltb_spec c 128); [| lia].
    simpl. f_equal. exact IH.
Qed.

Lemma filter_ascii_class U s :
  Forall (fun d => d < 128) s ->
  List.filter (fun c => negb (ALPHA_class U c)) s = List.filter ascii_alnum s.
Proof.
  induction 1 as [| c s Hc _ IH]; simpl.
  - reflexivity.
  - rewrite (ALPHA_class_ascii U c Hc), IH. reflexivity.
Qed.

Lemma Forall_filter_keep {A} (P : A -> Prop) (f : A -> bool) (l : list A) :
  Forall P l -> Forall P (List.filter f l).
Proof.
  induction 1 as [| a l Ha _ IH]; simpl.
  - constructor.
  - destruct (f a); [constructor |]; assumption.
Qed.

(** The code computes the search key the specification describes. *)
Lemma to_search_refines U v :
  ascii_tables U -> to_search U v = to_search_key_spec U v.
Proof.
  intros HU. unfold to_search, to_search_key_spec, ALPHA_REGEXP, re_sub.
  rewrite sub_runs_empty.
  pose proof (to_ascii_is_ascii U v HU) as Hascii.
  rewrite lower_ascii by (apply Forall_filter_keep; exact Hascii).
  rewrite filter_ascii_class by exact Hascii.
  reflexivity.
Qed.

Lemma search_char_lower c :
  ascii_alnum c = true -> search_char (ascii_to_lower c) = true.
Proof.
  unfold ascii_alnum, search_char, ascii_to_lower, ascii_upper, ascii_lower,
    ascii_digit.
  code_points.
Qed.

Lemma spec_key_is_search_key U v :
  is_search_key (to_search_key_spec U v) = true.
Proof.
  unfold to_search_key_spec, is_search_key.
  induction (to_ascii U v) as [| c s IH]; simpl.
  - reflexivity.
  - destruct (ascii_alnum c) eqn:Hc; simpl; [| exact IH].
    rewrite (search_char_lower c Hc), IH. reflexivity.
Qed.

Lemma to_search_is_search_key U v :
  ascii_tables U -> is_search_key (to_search U v) = true.
Proof.
  intros HU. rewrite (to_search_refines U v HU). apply spec_key_is_search_key.
Qed.

Lemma search_char_facts c :
  search_char c = true ->
  c < 128 /\ ascii_alnum c = true /\ ascii_to_lower c = c.
Proof.
  unfold ascii_alnum, search_char, ascii_to_lower, ascii_upper, ascii_lower,
    ascii_digit.
  code_points; repeat split; try lia; try congruence.
Qed.

Lemma search_key_ascii s :
  is_search_key s = true -> Forall (fun d => d < 128) s.
Proof.
  unfold is_search_key. induction s as [| c s IH]; simpl; intros H.
  - constructor.
  - apply andb_prop in H as [Hc Hs]. constructor; [| exact (IH Hs)].
    apply (search_char_facts c Hc).
Qed.

Lemma lower_search_key U s :
  is_search_key s = true -> lower U s = s.
Proof.
  intros H. rewrite lower_ascii by (apply search_key_ascii; exact H).
  unfold is_search_key in H. induction s as [| c s IH]; simpl in *.
  - reflexivity.
  - apply andb_prop in H as [Hc Hs].
    destruct (search_char_facts c Hc) as (_ & _ & ->). f_equal. exact (IH Hs).
Qed.

(** A search key is left as it is. *)
Lemma to_search_fixed U s :
  is_search_key s = true -> to_search U s = s.
Proof.
  intros H. unfold to_search, ALPHA_REGEXP, re_sub.
  pose proof (search_key_ascii s H) as Hascii.
  rewrite sub_runs_empty, (to_ascii_fixed U s Hascii).
  rewrite filter_ascii_class by exact Hascii.
  assert (Hkeep : List.filter ascii_alnum s = s).
  { unfold is_search_key in H. clear Hascii.
    induction s as [| c s IH]; simpl in *; [reflexivity |].
    apply andb_prop in H as [Hc Hs].
    destruct (search_char_facts c Hc) as (_ & -> & _). f_equal. exact (IH Hs). }
  rewrite Hkeep. apply lower_search_key. exact H.
Qed.

(** C1. Whenever the transliteration tables hold ASCII text only,
    [to_search] of any Unicode text is its transliteration with every
    character other than an ASCII letter or digit removed, in lower case;
    "Paris, Texas" and "paris texas" both give "paristexas". *)
Theorem to_search_is_spec_key (U : unicode_data) :
  ascii_tables U ->
  (forall value, to_search U value = to_search_key_spec U value)
  /\ to_search U (txt "Paris, Texas") = txt "paristexas"
  /\ to_search U (txt "paris texas") = txt "paristexas".
Proof.
  intros HU. split; [| split].
  - intros value. apply to_search_refines. exact HU.
  - reflexivity.
  - reflexivity.
Qed.

Lemma to_search_is_spec_key_witness :
  let v := txt "R" ++ [233] ++ txt "publique, Fran" ++ [231] ++ txt "aise" in
  to_search latin_sample v = to_search_key_spec latin_sample v
  /\ to_search_key_spec latin_sample v = txt "republiquefrancaise".
Proof.
  intros v. split.
  - exact (proj1 (to_search_is_spec_key latin_sample latin_sample_ascii) v).
  - reflexivity.
Defined.

(** C2. [to_search] is idempotent (the transliteration tables holding
    ASCII text only). *)
Theorem to_search_idempotent (U : unicode_data) (s : text) :
  ascii_tables U -> to_search U (to_search U s) = to_search U s.
Proof.
  intros HU. apply to_search_fixed. apply to_search_is_search_key. exact HU.
Qed.

Lemma to_search_idempotent_witness :
  let s := [206] ++ txt "le-de-France" in
  to_search latin_sample (to_search latin_sample s) = to_search latin_sample s.
Proof.
  intros s. exact (to_search_idempotent latin_sample s latin_sample_ascii).
Defined.

Lemma plain_name_ascii name :
  plain_name name = true -> Forall (fun d => d < 128) name.
Proof.
  unfold plain_name. induction name as [| c s IH]; simpl; intros H.
  - constructor.
  - apply andb_prop in H as [Hc Hs]. constructor; [| exact (IH Hs)].
    revert Hc. unfold ascii_alnum, ascii_upper, ascii_lower, ascii_digit, space.
    code_points.
Qed.

(** C9. [to_ascii] returns a name made of ASCII letters, digits and
    spaces unchanged. *)
Theorem to_ascii_plain_name (U : unicode_data) (name : text) :
  plain_name name = true -> to_ascii U name = name.
Proof.
  intros H. apply to_ascii_fixed. apply plain_name_ascii. exact H.
Qed.

Lemma to_ascii_plain_name_witness :
  to_ascii latin_sample (txt "Paris Texas 75") = txt "Paris Texas 75".
Proof.
  exact (to_ascii_plain_name latin_sample (txt "Paris Texas 75") eq_refl).
Defined.

(** ** Display names *)

Lemma fetch_Some {A} (table : gmap Z A) pk row :
  table !! pk = Some row -> fetch table pk = Ok row.
Proof. intros H. unfold fetch. rewrite H. reflexivity. Qed.

Lemma fetch_None {A} (table : gmap Z A) pk :
  table !! pk = None -> fetch table pk = Raise DoesNotExist.
Proof. intros H. unfold fetch. rewrite H. reflexivity. Qed.

Lemma truthy_id_Some pk : pk <> 0%Z -> truthy_id (Some pk) = true.
Proof.
  intros H. unfold truthy_id. destruct (Z.eqb_spec pk 0); [contradiction | reflexivity].
Qed.

(** What [AbstractRegion.get_display_name] comes to. *)
Lemma region_display_name_eval db r :
  AbstractRegion.get_display_name db r
  = if region_translated r then
      match countries db !! region_country_id r with
      | Some k =>
          if country_translated k
          then Ok (fmt2 (region_name r) (country_name k))
          else Raise NoTranslationError
      | None => Raise DoesNotExist
      end
    else Raise NoTranslationError.
Proof.
  unfold AbstractRegion.get_display_name, AbstractRegion.country,
    read_region_name, read_country_name, translated_field, fetch.
  destruct (region_translated r); simpl; [| reflexivity].
  destruct (countries db !! region_country_id r) as [k |]; simpl; [| reflexivity].
  destruct (country_translated k); reflexivity.
Qed.

(** The name of the region to put into the display name of a city, if
    any: the region the city points to with a key that counts as true,
    when it is stored and its name can be read. *)
Lemma city_display_name_eval db c :
  AbstractCity.get_display_name db c
  = if city_translated c then
      match countries db !! city_country_id c with
      | Some k =>
          if country_translated k then
            Ok (if truthy_id (city_region_id c) then
                  match city_region_id c with
                  | Some pk =>
                      match regions db !! pk with
                      | Some r =>
                          if region_translated r
                          then fmt3 (city_name c) (region_name r) (country_name k)
                          else fmt2 (city_name c) (country_name k)
                      | None => fmt2 (city_name c) (country_name k)
                      end
                  | None => fmt2 (city_name c) (country_name k)
                  end
                else fmt2 (city_name c) (country_name k))
          else Raise NoTranslationError
      | None => Raise DoesNotExist
      end
    else Raise NoTranslationError.
Proof.
  unfold AbstractCity.get_display_name, AbstractCity.region, AbstractCity.country,
    AbstractCity.name_of, read_city_name, read_region_name, read_country_name,
    translated_field, fetch.
  destruct (city_translated c); simpl.
  - destruct (countries db !! city_country_id c) as [k |]; simpl.
    + destruct (country_translated k); simpl.
      * destruct (truthy_id (city_region_id c)); [| reflexivity].
        destruct (city_region_id c) as [pk |]; simpl; [| reflexivity].
        destruct (regions db !! pk) as [r |]; simpl; [| reflexivity].
        destruct (region_translated r); reflexivity.
      * destruct (truthy_id (city_region_id c)); [| reflexivity].
        destruct (city_region_id c) as [pk |]; simpl; [| reflexivity].
        destruct (regions db !! pk) as [r |]; simpl; [| reflexivity].
        destruct (region_translated r); reflexivity.
    + destruct (truthy_id (city_region_id c)); [| reflexivity].
      destruct (city_region_id c) as [pk |]; simpl; [| reflexivity].
      destruct (regions db !! pk) as [r |]; simpl; [| reflexivity].
      destruct (region_translated r); reflexivity.
  - destruct (truthy_id (city_region_id c)); reflexivity.
Qed.

Example paris_full :
  AbstractCity.get_display_name (france_db 11) (paris (Some 11%Z))
  = Ok (txt "Paris, " ++ [206] ++ txt "le-de-France, France").
Proof. reflexivity. Qed.

Example paris_broken_region :
  AbstractCity.get_display_name (france_db 11) (paris (Some 12%Z))
  = Ok (txt "Paris, France").
Proof. reflexivity. Qed.

Example paris_no_region :
  AbstractCity.get_display_name (france_db 11) (paris None)
  = Ok (txt "Paris, France").
Proof. reflexivity. Qed.

(** C3, as stated, fails: a city whose region is stored, but has no
    translation to read its name from, is named without the region. *)
Lemma display_name_untranslated_region :
  ~ (forall db c pk r k,
        city_region_id c = Some pk ->
        regions db !! pk = Some r ->
        countries db !! city_country_id c = Some k ->
        AbstractCity.get_display_name db c
        = Ok (fmt3 (city_name c) (region_name r) (country_name k))).
Proof.
  intros H.
  specialize (H untranslated_region_db (paris (Some 11%Z)) 11%Z
                (ile_de_france_untranslated 1) france eq_refl eq_refl eq_refl).
  vm_compute in H. discriminate H.
Qed.

(** C3, amended.  With the name of the entity readable and its country
    stored with a readable name: a region is named "name, country"; a city
    whose [region_id] is set (neither null nor 0) and leads to a region
    with a readable name is named "name, region, country"; a city whose
    [region_id] is set but leads nowhere, or to a region whose name cannot
    be read, and a city whose [region_id] is null, are named
    "name, country". *)
Theorem get_display_name_cases (db : database) :
  (forall r k,
      region_translated r = true ->
      countries db !! region_country_id r = Some k ->
      country_translated k = true ->
      AbstractRegion.get_display_name db r
      = Ok (fmt2 (region_name r) (country_name k)))
  /\ (forall c pk r k,
         city_translated c = true ->
         city_region_id c = Some pk -> pk <> 0%Z ->
         regions db !! pk = Some r -> region_translated r = true ->
         countries db !! city_country_id c = Some k ->
         country_translated k = true ->
         AbstractCity.get_display_name db c
         = Ok (fmt3 (city_name c) (region_name r) (country_name k)))
  /\ (forall c pk k,
         city_translated c = true ->
         city_region_id c = Some pk -> pk <> 0%Z ->
         (regions db !! pk = None
          \/ exists r, regions db !! pk = Some r /\ region_translated r = false) ->
         countries db !! city_country_id c = Some k ->
         country_translated k = true ->
         AbstractCity.get_display_name db c
         = Ok (fmt2 (city_name c) (country_name k)))
  /\ (forall c k,
         city_translated c = true ->
         city_region_id c = None ->
         countries db !! city_country_id c = Some k ->
         country_translated k = true ->
         AbstractCity.get_display_name db c
         = Ok (fmt2 (city_name c) (country_name k))).
Proof.
  split; [| split; [| split]].
  - intros r k Hn Hk Hkn. rewrite region_display_name_eval, Hn, Hk, Hkn.
    reflexivity.
  - intros c pk r k Hn Hpk Hnz Hr Hrn Hk Hkn.
    rewrite city_display_name_eval, Hn, Hk, Hkn, Hpk, (truthy_id_Some pk Hnz),
      Hr, Hrn.
    reflexivity.
  - intros c pk k Hn Hpk Hnz Hr Hk Hkn.
    rewrite city_display_name_eval, Hn, Hk, Hkn, Hpk, (truthy_id_Some pk Hnz).
    destruct Hr as [-> | (r & -> & ->)]; reflexivity.
  - intros c k Hn Hpk Hk Hkn.
    rewrite city_display_name_eval, Hn, Hk, Hkn, Hpk. reflexivity.
Qed.

Lemma get_display_name_cases_witness :
  AbstractRegion.get_display_name (france_db 11) (ile_de_france 1)
  = Ok ([206] ++ txt "le-de-France, France")
  /\ AbstractCity.get_display_name (france_db 11) (paris (Some 11%Z))
     = Ok (txt "Paris, " ++ [206] ++ txt "le-de-France, France")
  /\ AbstractCity.get_display_name (france_db 11) (paris (Some 12%Z))
     = Ok (txt "Paris, France")
  /\ AbstractCity.get_display_name untranslated_region_db (paris (Some 11%Z))
     = Ok (txt "Paris, France")
  /\ AbstractCity.get_display_name (france_db 11) (paris None)
     = Ok (txt "Paris, France").
Proof.
  destruct (get_display_name_cases (france_db 11)) as (Hr & Hfull & Hgone & Hnull).
  destruct (get_display_name_cases untranslated_region_db) as (_ & _ & Hmute & _).
  split; [| split; [| split; [| split]]].
  - exact (Hr (ile_de_france 1) france eq_refl eq_refl eq_refl).
  - refine (Hfull (paris (Some 11%Z)) 11%Z (ile_de_france 1) france
                  eq_refl eq_refl _ eq_refl eq_refl eq_refl eq_refl). lia.
  - refine (Hgone (paris (Some 12%Z)) 12%Z france eq_refl eq_refl _
                  (or_introl eq_refl) eq_refl eq_refl). lia.
  - refine (Hmute (paris (Some 11%Z)) 11%Z france eq_refl eq_refl _
                  (or_intror (ex_intro _ (ile_de_france_untranslated 1)
                                       (conj eq_refl eq_refl)))
                  eq_refl eq_refl). lia.
  - exact (Hnull (paris None) france eq_refl eq_refl eq_refl eq_refl).
Defined.

(** C4, as stated, fails: a region whose country is not in the database
    has no display name; the lookup error reaches the caller. *)
Lemma display_name_dangling_country :
  ~ ((forall db r, exists s, AbstractRegion.get_display_name db r = Ok s)
     /\ (forall db c, exists s, AbstractCity.get_display_name db c = Ok s)).
Proof.
  intros [H _]. destruct (H (france_db 11) (ile_de_france 2)) as [s Hs].
  vm_compute in Hs. discriminate Hs.
Qed.

(** C4, amended.  [get_display_name] returns a text for a region, and
    for a city in any state of its region reference, whose own name can be
    read and whose country is stored with a readable name.  In every
    other case the error reaches the caller: the missing-translation error
    when the name of the entity cannot be read, the lookup error when the
    country is not in the database, the missing-translation error when the
    name of the country cannot be read. *)
Theorem get_display_name_total (db : database) :
  (forall r k,
      region_translated r = true ->
      countries db !! region_country_id r = Some k ->
      country_translated k = true ->
      exists s, AbstractRegion.get_display_name db r = Ok s)
  /\ (forall c k,
         city_translated c = true ->
         countries db !! city_country_id c = Some k ->
         country_translated k = true ->
         exists s, AbstractCity.get_display_name db c = Ok s)
  /\ (forall r,
         (region_translated r = false ->
          AbstractRegion.get_display_name db r = Raise NoTranslationError)
         /\ (region_translated r = true ->
             countries db !! region_country_id r = None ->
             AbstractRegion.get_display_name db r = Raise DoesNotExist)
         /\ (forall k, region_translated r = true ->
                       countries db !! region_country_id r = Some k ->
                       country_translated k = false ->
                       AbstractRegion.get_display_name db r
                       = Raise NoTranslationError))
  /\ (forall c,
         (city_translated c = false ->
          AbstractCity.get_display_name db c = Raise NoTranslationError)
         /\ (city_translated c = true ->
             countries db !! city_country_id c = None ->
             AbstractCity.get_display_name db c = Raise DoesNotExist)
         /\ (forall k, city_translated c = true ->
                       countries db !! city_country_id c = Some k ->
                       country_translated k = false ->
                       AbstractCity.get_display_name db c
                       = Raise NoTranslationError)).
Proof.
  split; [| split; [| split]].
  - intros r k Hn Hk Hkn. rewrite region_display_name_eval, Hn, Hk, Hkn. eauto.
  - intros c k Hn Hk Hkn. rewrite city_display_name_eval, Hn, Hk, Hkn. eauto.
  - intros r. split; [| split].
    + intros Hn. rewrite region_display_name_eval, Hn. reflexivity.
    + intros Hn Hk. rewrite region_display_name_eval, Hn, Hk. reflexivity.
    + intros k Hn Hk Hkn. rewrite region_display_name_eval, Hn, Hk, Hkn.
      reflexivity.
  - intros c. split; [| split].
    + intros Hn. rewrite city_display_name_eval, Hn. reflexivity.
    + intros Hn Hk. rewrite city_display_name_eval, Hn, Hk. reflexivity.
    + intros k Hn Hk Hkn. rewrite city_display_name_eval, Hn, Hk, Hkn.
      reflexivity.
Qed.

Lemma get_display_name_total_witness :
  (exists s, AbstractRegion.get_display_name (france_db 11) (ile_de_france 1) = Ok s)
  /\ (exists s, AbstractCity.get_display_name untranslated_region_db
                  (paris (Some 11%Z)) = Ok s)
  /\ AbstractRegion.get_display_name (france_db 11) (ile_de_france_untranslated 1)
     = Raise NoTranslationError
  /\ AbstractRegion.get_display_name (france_db 11) (ile_de_france 2)
     = Raise DoesNotExist
  /\ AbstractCity.get_display_name empty_db (paris (Some 11%Z))
     = Raise DoesNotExist
  /\ AbstractCity.get_display_name untranslated_country_db (paris None)
     = Raise NoTranslationError.
Proof.
  destruct (get_display_name_total (france_db 11)) as (Hr & _ & Hr' & _).
  destruct (get_display_name_total untranslated_region_db) as (_ & Hc & _ & _).
  destruct (get_display_name_total empty_db) as (_ & _ & _ & Hc').
  destruct (get_display_name_total untranslated_country_db) as (_ & _ & _ & Hc'').
  split; [| split; [| split; [| split; [| split]]]].
  - exact (Hr (ile_de_france 1) france eq_refl eq_refl eq_refl).
  - exact (Hc (paris (Some 11%Z)) france eq_refl eq_refl eq_refl).
  - exact (proj1 (Hr' (ile_de_france_untranslated 1)) eq_refl).
  - exact (proj1 (proj2 (Hr' (ile_de_france 2))) eq_refl eq_refl).
  - exact (proj1 (proj2 (Hc' (paris (Some 11%Z)))) eq_refl eq_refl).
  - exact (proj2 (proj2 (Hc'' (paris None))) france_untranslated
                 eq_refl eq_refl eq_refl).
Defined.

(** ** String rendering *)



(** ** Time zones *)

Example timezone_paris :
  get_timezone_info sample_tz (paris None) = Ok (zone_named (txt "Europe/Paris")).
Proof. vm_compute. reflexivity. Qed.

(** C5. With a configured zone that the zone database knows,
    [get_timezone_info] returns the zone of [self.timezone] when the
    database knows that name, and the configured zone when [self.timezone]
    is null, empty or otherwise unknown to the database; it returns a zone
    in every case.  With UTC configured, "Not/AZone" gives UTC and
    "Europe/Paris" gives Europe/Paris. *)
Theorem get_timezone_info_fallback (E : tz_env) (default : tzinfo) :
  tzdb E (TIME_ZONE E) = Some default ->
  (forall c n tz, city_timezone c = Some n -> tzdb E n = Some tz ->
                  get_timezone_info E c = Ok tz)
  /\ (forall c, city_timezone c = None -> get_timezone_info E c = Ok default)
  /\ (forall c, city_timezone c = Some [] -> tzdb E [] = None ->
                get_timezone_info E c = Ok default)
  /\ (forall c n, city_timezone c = Some n -> tzdb E n = None ->
                  get_timezone_info E c = Ok default)
  /\ (forall c, exists tz, get_timezone_info E c = Ok tz)
  /\ (forall c, TIME_ZONE E = txt "UTC" ->
                default = zone_named (txt "UTC") ->
                tzdb E (txt "Not/AZone") = None ->
                city_timezone c = Some (txt "Not/AZone") ->
                get_timezone_info E c = Ok (zone_named (txt "UTC")))
  /\ (forall c, TIME_ZONE E = txt "UTC" ->
                tzdb E (txt "Europe/Paris") = Some (zone_named (txt "Europe/Paris")) ->
                city_timezone c = Some (txt "Europe/Paris") ->
                get_timezone_info E c = Ok (zone_named (txt "Europe/Paris"))).
Proof.
  intros Hdef.
  assert (Hknown : forall c n tz, city_timezone c = Some n -> tzdb E n = Some tz ->
                                  get_timezone_info E c = Ok tz).
  { intros c n tz Hc Hn. unfold get_timezone_info, pytz_timezone.
    rewrite Hc, Hn. reflexivity. }
  assert (Hunknown : forall c n, city_timezone c = Some n -> tzdb E n = None ->
                                 get_timezone_info E c = Ok default).
  { intros c n Hc Hn. unfold get_timezone_info, pytz_timezone.
    rewrite Hc, Hn, Hdef. reflexivity. }
  assert (Hnull : forall c, city_timezone c = None ->
                            get_timezone_info E c = Ok default).
  { intros c Hc. unfold get_timezone_info, pytz_timezone.
    rewrite Hc, Hdef. reflexivity. }
  repeat split.
  - exact Hknown.
  - exact Hnull.
  - intros c Hc Hn. exact (Hunknown c [] Hc Hn).
  - exact Hunknown.
  - intros c. destruct (city_timezone c) as [n |] eqn:Hc.
    + destruct (tzdb E n) as [tz |] eqn:Hn; eauto.
    + eauto.
  - intros c _ -> Hn Hc. exact (Hunknown c _ Hc Hn).
  - intros c _ Hn Hc. exact (Hknown c _ _ Hc Hn).
Qed.

Lemma get_timezone_info_fallback_witness :
  get_timezone_info sample_tz (with_timezone (paris None) (Some (txt "Not/AZone")))
  = Ok (zone_named (txt "UTC"))
  /\ get_timezone_info sample_tz (paris None)
     = Ok (zone_named (txt "Europe/Paris"))
  /\ get_timezone_info sample_tz (with_timezone (paris None) None)
     = Ok (zone_named (txt "UTC"))
  /\ get_timezone_info sample_tz (with_timezone (paris None) (Some []))
     = Ok (zone_named (txt "UTC")).
Proof.
  destruct (get_timezone_info_fallback sample_tz (zone_named (txt "UTC")) eq_refl)
    as (_ & Hnull & Hempty & _ & _ & Hnot & Hparis).
  split; [| split; [| split]].
  - apply Hnot; reflexivity.
  - apply Hparis; reflexivity.
  - apply Hnull; reflexivity.
  - apply Hempty; reflexivity.
Defined.

(** ** Search *)

Lemma is_prefix_spec p s :
  is_prefix p s = true <-> exists post, s = p ++ post.
Proof.
  revert s. induction p as [| a p IH]; intros s; simpl.
  - split; [intros _; exists s; reflexivity | reflexivity].
  - destruct s as [| b s].
    + split; [discriminate | intros [post H]; discriminate H].
    + rewrite andb_true_iff, N.eqb_eq, IH. split.
      * intros [-> [post ->]]. exists post. reflexivity.
      * intros [post H]. injection H as -> ->. split; [reflexivity | eauto].
Qed.

Lemma contains_spec k s : contains k s = true <-> substring k s.
Proof.
  unfold substring. induction s as [| b s IH]; simpl.
  - rewrite orb_false_r, is_prefix_spec. split.
    + intros [post H]. exists [], post. exact H.
    + intros (pre & post & H). destruct pre as [| x pre]; [| discriminate H].
      exists post. exact H.
  - rewrite orb_true_iff, is_prefix_spec, IH. split.
    + intros [[post H] | (pre & post & H)].
      * exists [], post. exact H.
      * exists (b :: pre), post. simpl. rewrite H. reflexivity.
    + intros (pre & post & H). destruct pre as [| x pre]; simpl in H.
      * left. exists post. exact H.
      * right. injection H as _ H. exists pre, post. exact H.
Qed.

Lemma search_matches_contains U q stored :
  ascii_tables U -> is_search_key stored = true ->
  search_matches U q stored = contains (to_search U q) stored.
Proof.
  intros HU Hs.
  unfold search_matches, ToSearchIContainsLookup.holds, IContains.holds,
    ToSearchIContainsLookup.get_prep_lookup, IContains.get_prep_lookup.
  rewrite (lower_search_key U stored Hs).
  rewrite (lower_search_key U _ (to_search_is_search_key U q HU)).
  reflexivity.
Qed.

(** C6. The transliteration tables holding ASCII text only and [stored]
    being a search key, [search_matches query stored] holds exactly when
    [to_search query] is a substring of [stored]: the lookup passes the
    query through [to_search] before it compares.  "republique" matches
    "republiquefrancaise" and "xyz" does not. *)
Theorem search_matches_substring (U : unicode_data) :
  ascii_tables U ->
  (forall query stored,
      is_search_key stored = true ->
      (search_matches U query stored = true
       <-> substring (to_search U query) stored))
  /\ search_matches U (txt "republique") (txt "republiquefrancaise") = true
  /\ search_matches U (txt "xyz") (txt "republiquefrancaise") = false.
Proof.
  intros HU. split; [| split].
  - intros query stored Hs.
    rewrite (search_matches_contains U query stored HU Hs).
    apply contains_spec.
  - reflexivity.
  - reflexivity.
Qed.

Lemma search_matches_substring_witness :
  search_matches latin_sample (txt "R" ++ [233] ++ txt "publique")
                 (txt "republiquefrancaise") = true
  <-> substring (to_search latin_sample (txt "R" ++ [233] ++ txt "publique"))
                (txt "republiquefrancaise").
Proof.
  destruct (search_matches_substring latin_sample latin_sample_ascii)
    as (Hiff & _).
  apply Hiff. reflexivity.
Defined.

(** ** Slugs *)

Lemma crop_or_keep (slug : text) :
  (if truthy_text slug then Some (firstn 50 slug) else Some slug)
  = Some (firstn 50 slug).
Proof. destruct slug; reflexivity. Qed.

(** The field as declared never looks at the slugs in use. *)
Lemma Base_slug_pre_save slugify fuel rivals module_name current populated :
  pre_save fuel Base_slug slugify rivals module_name current populated
  = Some (Base_slug_value slugify module_name current populated).
Proof.
  unfold pre_save, Base_slug_value, crop_slug. simpl.
  destruct (truthy_text current); simpl; apply crop_or_keep.
Qed.

(** What the three saves come to. *)
Lemma save_country_eval slugify fuel db pk c :
  save_country slugify fuel db pk c
  = Some (Ok {| countries :=
                  <[pk := set_country_slug c
                            (Base_slug_value slugify (txt "country")
                               (country_slug c) (country_name_ascii c))]>
                    (countries db);
                regions := regions db;
                cities := cities db |}).
Proof. unfold save_country. rewrite Base_slug_pre_save. reflexivity. Qed.

Lemma save_region_eval slugify fuel db pk r :
  save_region slugify fuel db pk r
  = let r' := set_region_slug r
                (Base_slug_value slugify (txt "region")
                   (region_slug r) (region_name_ascii r)) in
    Some (if region_conflict (regions db) pk r' then Raise IntegrityError
          else Ok {| countries := countries db;
                     regions := <[pk := r']> (regions db);
                     cities := cities db |}).
Proof. unfold save_region. rewrite Base_slug_pre_save. reflexivity. Qed.

Lemma save_city_eval slugify fuel db pk c :
  save_city slugify fuel db pk c
  = let c' := set_city_slug c
                (Base_slug_value slugify (txt "city")
                   (city_slug c) (city_name_ascii c)) in
    Some (if city_conflict (cities db) pk c' then Raise IntegrityError
          else Ok {| countries := countries db;
                     regions := regions db;
                     cities := <[pk := c']> (cities db) |}).
Proof. unfold save_city. rewrite Base_slug_pre_save. reflexivity. Qed.

(** The declared constraints, spelt out. *)
Lemma region_conflict_spec table pk r :
  region_conflict table pk r = true
  <-> exists pk' r',
        pk' <> pk /\ table !! pk' = Some r'
        /\ region_country_id r' = region_country_id r
        /\ region_slug r' = region_slug r.
Proof.
  unfold region_conflict. rewrite bool_decide_eq_true. unfold map_Exists. split.
  - intros (pk' & r' & Hr' & Hne & Hk & Hs). exists pk', r'. auto.
  - intros (pk' & r' & Hne & Hr' & Hk & Hs). exists pk', r'. auto.
Qed.

Lemma city_conflict_spec table pk c :
  city_conflict table pk c = true
  <-> exists pk' c' rid,
        pk' <> pk /\ table !! pk' = Some c'
        /\ city_region_id c = Some rid /\ city_region_id c' = Some rid
        /\ city_slug c' = city_slug c.
Proof.
  unfold city_conflict. rewrite bool_decide_eq_true. unfold map_Exists. split.
  - intros (pk' & c' & Hc' & Hne & [rid Hrid] & Hr & Hs).
    exists pk', c', rid. rewrite Hr. auto.
  - intros (pk' & c' & rid & Hne & Hc' & Hrid & Hrid' & Hs).
    exists pk', c'. rewrite Hrid, Hrid'. repeat split; eauto.
Qed.

(** A region is turned down exactly when another region of its country
    carries the slug it would get; a city, when another city of its region
    does. *)
Lemma save_region_rejected slugify fuel db pk r :
  save_region slugify fuel db pk r = Some (Raise IntegrityError)
  <-> exists pk' r',
        pk' <> pk /\ regions db !! pk' = Some r'
        /\ region_country_id r' = region_country_id r
        /\ region_slug r'
           = Base_slug_value slugify (txt "region")
               (region_slug r) (region_name_ascii r).
Proof.
  rewrite save_region_eval. cbv zeta.
  match goal with
  | |- context [region_conflict ?t ?k ?row] =>
      pose proof (region_conflict_spec t k row) as Hspec;
      destruct (region_conflict t k row)
  end; simpl in Hspec.
  - split; [intros _; apply Hspec; reflexivity | reflexivity].
  - split; [discriminate |].
    intros H. apply Hspec in H. discriminate H.
Qed.

Lemma save_city_rejected slugify fuel db pk c :
  save_city slugify fuel db pk c = Some (Raise IntegrityError)
  <-> exists pk' c' rid,
        pk' <> pk /\ cities db !! pk' = Some c'
        /\ city_region_id c = Some rid /\ city_region_id c' = Some rid
        /\ city_slug c'
           = Base_slug_value slugify (txt "city")
               (city_slug c) (city_name_ascii c).
Proof.
  rewrite save_city_eval. cbv zeta.
  match goal with
  | |- context [city_conflict ?t ?k ?row] =>
      pose proof (city_conflict_spec t k row) as Hspec;
      destruct (city_conflict t k row)
  end; simpl in Hspec.
  - split; [intros _; apply Hspec; reflexivity | reflexivity].
  - split; [discriminate |].
    intros H. apply Hspec in H. discriminate H.
Qed.

(** With [unique=True] the field allocates the way the specification
    describes. *)
Example unique_slug_georgia :
  let allocate used :=
    pre_save 5 unique_slug plain_slugify (fun s => bool_decide (s ∈ used))
             (txt "country") [] (txt "Georgia") in
  allocate [] = Some (txt "georgia")
  /\ allocate [txt "georgia"] = Some (txt "georgia-2")
  /\ allocate [txt "georgia-2"; txt "georgia"] = Some (txt "georgia-3").
Proof. vm_compute. repeat split. Qed.

(** C7, as stated, fails: with "georgia" in use, the slug allocated for
    "Georgia" is "georgia" again, not an unused candidate. *)
Lemma slug_georgia_in_use :
  ~ (forall fuel rivals,
        rivals (txt "georgia") = true ->
        exists s,
          pre_save fuel Base_slug plain_slugify rivals
                   (txt "region") [] (txt "Georgia") = Some s
          /\ rivals s = false).
Proof.
  intros H.
  destruct (H 5%nat (fun s => bool_decide (s = txt "georgia")))
    as (s & Hs & Hfree); [vm_compute; reflexivity |].
  vm_compute in Hs. injection Hs as <-. vm_compute in Hfree. discriminate Hfree.
Qed.

(** C7, amended.  The slug allocated for a new row is the slugified
    [name_ascii] (the model name when nothing is left of it), cut to 50
    characters, whichever slugs are in use: no suffixed candidate is
    tried, and "Georgia" gets "georgia" every time.  A region whose slug
    another region of the same country carries, and a city whose slug
    another city of the same region carries, is turned down with an
    integrity error when it is written. *)
Theorem Base_slug_allocation (slugify : text -> text) :
  (forall fuel rivals module_name populated,
      pre_save fuel Base_slug slugify rivals module_name [] populated
      = Some (firstn 50
                (let slugified :=
                   if truthy_text populated then slugify populated else [] in
                 if truthy_text slugified then slugified else module_name)))
  /\ (forall fuel rivals,
         pre_save fuel Base_slug plain_slugify rivals
                  (txt "region") [] (txt "Georgia")
         = Some (txt "georgia"))
  /\ (forall fuel db pk r pk' r',
         pk' <> pk -> regions db !! pk' = Some r' ->
         region_country_id r' = region_country_id r ->
         region_slug r'
         = Base_slug_value slugify (txt "region")
             (region_slug r) (region_name_ascii r) ->
         save_region slugify fuel db pk r = Some (Raise IntegrityError))
  /\ (forall fuel db pk c pk' c' rid,
         pk' <> pk -> cities db !! pk' = Some c' ->
         city_region_id c = Some rid -> city_region_id c' = Some rid ->
         city_slug c'
         = Base_slug_value slugify (txt "city")
             (city_slug c) (city_name_ascii c) ->
         save_city slugify fuel db pk c = Some (Raise IntegrityError)).
Proof.
  split; [| split; [| split]].
  - intros fuel rivals module_name populated.
    rewrite Base_slug_pre_save. reflexivity.
  - intros fuel rivals. rewrite Base_slug_pre_save. reflexivity.
  - intros fuel db pk r pk' r' Hne Hr' Hk Hs.
    apply save_region_rejected. exists pk', r'. auto.
  - intros fuel db pk c pk' c' rid Hne Hc' Hrid Hrid' Hs.
    apply save_city_rejected. exists pk', c', rid. auto.
Qed.

Lemma Base_slug_allocation_witness :
  save_region plain_slugify 5 (france_db 11) 12 (ile_de_france 1)
  = Some (Raise IntegrityError)
  /\ save_city plain_slugify 5 paris_db 6 (paris (Some 11%Z))
     = Some (Raise IntegrityError).
Proof.
  destruct (Base_slug_allocation plain_slugify) as (_ & _ & Hr & Hc).
  split.
  - refine (Hr 5%nat (france_db 11) 12%Z (ile_de_france 1) 11%Z (ile_de_france 1)
               _ eq_refl eq_refl _).
    + lia.
    + vm_compute. reflexivity.
  - refine (Hc 5%nat paris_db 6%Z (paris (Some 11%Z)) 5%Z (paris (Some 11%Z)) 11%Z
               _ eq_refl eq_refl eq_refl _).
    + lia.
    + vm_compute. reflexivity.
Defined.

(** ** Uniqueness of slugs *)

Lemma region_slugs_unique_mono db db' :
  regions db' ⊆ regions db ->
  region_slugs_unique db -> region_slugs_unique db'.
Proof.
  intros Hsub Hinv pk1 pk2 r1 r2 H1 H2.
  apply (Hinv pk1 pk2 r1 r2); eapply lookup_weaken; eassumption.
Qed.

Lemma city_slugs_unique_mono db db' :
  cities db' ⊆ cities db ->
  city_slugs_unique db -> city_slugs_unique db'.
Proof.
  intros Hsub Hinv pk1 pk2 c1 c2 rid H1 H2.
  apply (Hinv pk1 pk2 c1 c2 rid); eapply lookup_weaken; eassumption.
Qed.

(** An accepted region keeps the regions of each country apart. *)
Lemma region_insert_unique db pk r :
  region_conflict (regions db) pk r = false ->
  region_slugs_unique db ->
  region_slugs_unique {| countries := countries db;
                         regions := <[pk := r]> (regions db);
                         cities := cities db |}.
Proof.
  intros Hfree Hinv pk1 pk2 r1 r2. simpl.
  unfold region_conflict in Hfree. apply bool_decide_eq_false in Hfree.
  rewrite !lookup_insert_Some.
  intros [[<- <-] | [Hne1 H1]] [[<- <-] | [Hne2 H2]] Hk Hs.
  - reflexivity.
  - exfalso. apply Hfree. exists pk2, r2. split; [exact H2 |]. auto.
  - exfalso. apply Hfree. exists pk1, r1. split; [exact H1 |]. auto.
  - exact (Hinv pk1 pk2 r1 r2 H1 H2 Hk Hs).
Qed.

(** An accepted city keeps the cities of each region apart. *)
Lemma city_insert_unique db pk c :
  city_conflict (cities db) pk c = false ->
  city_slugs_unique db ->
  city_slugs_unique {| countries := countries db;
                       regions := regions db;
                       cities := <[pk := c]> (cities db) |}.
Proof.
  intros Hfree Hinv pk1 pk2 c1 c2 rid. simpl.
  unfold city_conflict in Hfree. apply bool_decide_eq_false in Hfree.
  rewrite !lookup_insert_Some.
  intros [[<- <-] | [Hne1 H1]] [[<- <-] | [Hne2 H2]] Hr1 Hr2 Hs.
  - reflexivity.
  - exfalso. apply Hfree. exists pk2, c2. split; [exact H2 |].
    rewrite Hr1. repeat split; eauto.
  - exfalso. apply Hfree. exists pk1, c1. split; [exact H1 |].
    rewrite Hr2. repeat split; eauto.
  - exact (Hinv pk1 pk2 c1 c2 rid H1 H2 Hr1 Hr2 Hs).
Qed.


Example save_second_georgia :
  apply_write plain_slugify 5 georgia_db (SaveCountry 2 (georgia []))
  = Some (Ok two_georgias).
Proof. reflexivity. Qed.

(** C8, as stated, fails: saving a second country called Georgia is
    accepted, and leaves two countries with the slug "georgia". *)
Lemma country_slug_not_unique :
  ~ (forall slugify fuel db w db',
        slugs_unique_spec db ->
        apply_write slugify fuel db w = Some (Ok db') ->
        slugs_unique_spec db').
Proof.
  intros H.
  assert (Hinit : slugs_unique_spec georgia_db).
  { repeat split.
    - intros pk1 pk2 c1 c2. unfold georgia_db; simpl.
      rewrite !lookup_singleton_Some. intros [<- _] [<- _] _. reflexivity.
    - intros pk1 pk2 r1 r2 H1. unfold georgia_db in H1; simpl in H1.
      rewrite lookup_empty in H1. discriminate H1.
    - intros pk1 pk2 c1 c2 rid H1. unfold georgia_db in H1; simpl in H1.
      rewrite lookup_empty in H1. discriminate H1. }
  destruct (H plain_slugify 5%nat georgia_db (SaveCountry 2 (georgia []))
              two_georgias Hinit save_second_georgia) as (Hk & _ & _).
  specialize (Hk 1%Z 2%Z (georgia (txt "georgia")) (georgia (txt "georgia"))
                 eq_refl eq_refl eq_refl).
  discriminate Hk.
Qed.

(** C8, amended.  Every accepted write (a save or a cascading deletion of
    a country, region or city) keeps the slugs of the regions of one
    country distinct, and the slugs of the cities of one region distinct.
    A region is turned down with an integrity error exactly when another
    region of its country carries its slug, a city exactly when another
    city of its region does.  The slugs of countries, and of cities
    without a region, are not constrained: such a row is always taken. *)
Theorem writes_keep_scoped_slugs_unique
        (slugify : text -> text) (fuel : nat) (db : database) :
  (forall w db',
      region_slugs_unique db /\ city_slugs_unique db ->
      apply_write slugify fuel db w = Some (Ok db') ->
      region_slugs_unique db' /\ city_slugs_unique db')
  /\ (forall pk r,
         apply_write slugify fuel db (SaveRegion pk r) = Some (Raise IntegrityError)
         <-> exists pk' r',
               pk' <> pk /\ regions db !! pk' = Some r'
               /\ region_country_id r' = region_country_id r
               /\ region_slug r'
                  = Base_slug_value slugify (txt "region")
                      (region_slug r) (region_name_ascii r))
  /\ (forall pk c,
         apply_write slugify fuel db (SaveCity pk c) = Some (Raise IntegrityError)
         <-> exists pk' c' rid,
               pk' <> pk /\ cities db !! pk' = Some c'
               /\ city_region_id c = Some rid /\ city_region_id c' = Some rid
               /\ city_slug c'
                  = Base_slug_value slugify (txt "city")
                      (city_slug c) (city_name_ascii c))
  /\ (forall pk c,
         exists db', apply_write slugify fuel db (SaveCountry pk c) = Some (Ok db'))
  /\ (forall pk c,
         city_region_id c = None ->
         exists db', apply_write slugify fuel db (SaveCity pk c) = Some (Ok db')).
Proof.
  split; [| split; [| split; [| split]]].
  - intros w db'.
    intros [Hr Hc] Hw. destruct w as [pk c | pk r | pk c | pk | pk | pk]; simpl in Hw.
    + unfold save_country in Hw. rewrite Base_slug_pre_save in Hw.
      simpl in Hw. injection Hw as <-. split; assumption.
    + unfold save_region in Hw. rewrite Base_slug_pre_save in Hw.
      cbn -[crop_slug region_conflict] in Hw.
      match type of Hw with
      | context [region_conflict ?t ?k ?row] =>
          destruct (region_conflict t k row) eqn:Hfree
      end; [discriminate Hw |].
      injection Hw as <-. split; [| exact Hc].
      apply region_insert_unique; assumption.
    + unfold save_city in Hw. rewrite Base_slug_pre_save in Hw.
      cbn -[crop_slug city_conflict] in Hw.
      match type of Hw with
      | context [city_conflict ?t ?k ?row] =>
          destruct (city_conflict t k row) eqn:Hfree
      end; [discriminate Hw |].
      injection Hw as <-. split; [exact Hr |].
      apply city_insert_unique; assumption.
    + injection Hw as <-. split.
      * apply (region_slugs_unique_mono db); [apply map_filter_subseteq | exact Hr].
      * apply (city_slugs_unique_mono db); [apply map_filter_subseteq | exact Hc].
    + injection Hw as <-. split.
      * apply (region_slugs_unique_mono db); [apply delete_subseteq | exact Hr].
      * apply (city_slugs_unique_mono db); [apply map_filter_subseteq | exact Hc].
    + injection Hw as <-. split.
      * exact Hr.
      * apply (city_slugs_unique_mono db); [apply delete_subseteq | exact Hc].
  - intros pk r. simpl. apply save_region_rejected.
  - intros pk c. simpl. apply save_city_rejected.
  - intros pk c. simpl. rewrite save_country_eval. eauto.
  - intros pk c Hnull. simpl. rewrite save_city_eval. cbv zeta.
    match goal with
    | |- context [city_conflict ?t ?k ?row] =>
        pose proof (city_conflict_spec t k row) as Hspec;
        destruct (city_conflict t k row)
    end; [| eauto].
    destruct (proj1 Hspec eq_refl) as (pk' & c' & rid & _ & _ & Hrid & _).
    simpl in Hrid. congruence.
Qed.

Lemma france_db_scoped_unique pk :
  region_slugs_unique (france_db pk) /\ city_slugs_unique (france_db pk).
Proof.
  split.
  - intros pk1 pk2 r1 r2. unfold france_db; simpl.
    rewrite !lookup_singleton_Some. intros [<- _] [<- _] _ _. reflexivity.
  - intros pk1 pk2 c1 c2 rid H1. unfold france_db in H1; simpl in H1.
    rewrite lookup_empty in H1. discriminate H1.
Qed.

Lemma writes_keep_scoped_slugs_unique_witness :
  apply_write plain_slugify 5 (france_db 11) (SaveRegion 12 bavaria)
  = Some (Ok france_and_bavaria)
  /\ region_slugs_unique france_and_bavaria
  /\ city_slugs_unique france_and_bavaria
  /\ (exists db', apply_write plain_slugify 5 empty_db (SaveCity 2 (paris None))
                  = Some (Ok db')).
Proof.
  assert (Hw : apply_write plain_slugify 5 (france_db 11) (SaveRegion 12 bavaria)
               = Some (Ok france_and_bavaria)) by (vm_compute; reflexivity).
  destruct (writes_keep_scoped_slugs_unique plain_slugify 5 (france_db 11))
    as (Hkeep & _).
  destruct (writes_keep_scoped_slugs_unique plain_slugify 5 empty_db)
    as (_ & _ & _ & _ & Hfree).
  split; [exact Hw |].
  destruct (Hkeep (SaveRegion 12 bavaria) france_and_bavaria
                  (france_db_scoped_unique 11) Hw) as [Hr Hc].
  split; [exact Hr |]. split; [exact Hc |].
  exact (Hfree 2%Z (paris None) eq_refl).
Defined.

(** A second region of the same country with the same slug is turned
    down. *)
Example save_region_same_slug :
  apply_write plain_slugify 5 (france_db 11) (SaveRegion 12 (ile_de_france 1))
  = Some (Raise IntegrityError).
Proof. vm_compute. reflexivity. Qed.

(** Two cities without a region may carry the same slug. *)
Example save_city_without_region :
  exists db db',
    apply_write plain_slugify 5 empty_db (SaveCity 1 (paris None)) = Some (Ok db)
    /\ apply_write plain_slugify 5 db (SaveCity 2 (paris None)) = Some (Ok db')
    /\ (city_slug <$> cities db' !! 1%Z) = Some (txt "paris")
    /\ (city_slug <$> cities db' !! 2%Z) = Some (txt "paris").
Proof.
  eexists _, _. split; [vm_compute; reflexivity |].
  split; [vm_compute; reflexivity |]. split; reflexivity.
Qed.

(** * Further properties *)

(** ** Normaliser, continued *)

Lemma to_search_unfold U v :
  to_search U v
  = lower U (List.filter (fun c => negb (ALPHA_class U c)) (to_ascii U v)).
Proof. unfold to_search, ALPHA_REGEXP, re_sub. rewrite sub_runs_empty. reflexivity. Qed.

Lemma to_ascii_app U a b : to_ascii U (a ++ b) = to_ascii U a ++ to_ascii U b.
Proof. unfold to_ascii, force_text, unidecode. apply flat_map_app. Qed.

Lemma to_search_concat U a b :
  to_search U (a ++ b) = to_search U a ++ to_search U b.
Proof.
  rewrite !to_search_unfold, to_ascii_app, List.filter_app.
  unfold lower. apply flat_map_app.
Qed.

Lemma ascii_text_Forall s :
  ascii_text s = true -> Forall (fun d => d < 128) s.
Proof.
  unfold ascii_text, is_ascii. induction s as [| c s IH]; simpl; intros H.
  - constructor.
  - apply andb_prop in H as [Hc Hs]. constructor; [| exact (IH Hs)].
    apply N.ltb_lt. exact Hc.
Qed.

Lemma to_search_blank U q : blank_query q = true -> to_search U q = [].
Proof.
  unfold blank_query. induction q as [| c q IH]; simpl; intros H.
  - reflexivity.
  - apply andb_prop in H as [Hc Hq]. apply andb_prop in Hc as [Hascii Halnum].
    change (c :: q) with ([c] ++ q). rewrite to_search_concat, (IH Hq), app_nil_r.
    rewrite to_search_unfold.
    assert (Hlt : c < 128) by (apply N.ltb_lt; exact Hascii).
    rewrite (to_ascii_fixed U [c]) by (constructor; [exact Hlt | constructor]).
    simpl. rewrite (ALPHA_class_ascii U c Hlt).
    destruct (ascii_alnum c); [discriminate Halnum | reflexivity].
Qed.

(** X1. The transliteration tables holding ASCII text only, every
    character of a search key is one of a-z and 0-9. *)
Theorem to_search_alphabet (U : unicode_data) (value : text) (c : N) :
  ascii_tables U ->
  In c (to_search U value) ->
  (97 <= c /\ c <= 122) \/ (48 <= c /\ c <= 57).
Proof.
  intros HU Hin.
  pose proof (to_search_is_search_key U value HU) as Hkey.
  unfold is_search_key in Hkey. rewrite forallb_forall in Hkey.
  specialize (Hkey c Hin). revert Hkey.
  unfold search_char, ascii_lower, ascii_digit.
  destruct (N.leb_spec 97 c), (N.leb_spec c 122), (N.leb_spec 48 c),
    (N.leb_spec c 57); simpl; intros Hkey; try discriminate Hkey; lia.
Qed.

Lemma to_search_alphabet_witness :
  In 101 (to_search latin_sample (txt "Caf" ++ [233] ++ txt " 24"))
  /\ ((97 <= 101 /\ 101 <= 122) \/ (48 <= 101 /\ 101 <= 57)).
Proof.
  assert (Hin : In 101 (to_search latin_sample (txt "Caf" ++ [233] ++ txt " 24")))
    by (vm_compute; tauto).
  split; [exact Hin |].
  exact (to_search_alphabet latin_sample (txt "Caf" ++ [233] ++ txt " 24") 101
                            latin_sample_ascii Hin).
Defined.

(** X2. The search key of a concatenation is the concatenation of the
    search keys. *)
Theorem to_search_app (U : unicode_data) (a b : text) :
  to_search U (a ++ b) = to_search U a ++ to_search U b.
Proof.
  rewrite !to_search_unfold, to_ascii_app, List.filter_app.
  unfold lower. rewrite flat_map_app. reflexivity.
Qed.

(** X3. An ASCII character that is neither a letter nor a digit (a blank,
    a comma, a hyphen, an underscore) leaves no trace in the search key,
    wherever it stands. *)
Theorem to_search_skips_punctuation (U : unicode_data) (a b : text) (c : N) :
  c < 128 -> ascii_alnum c = false ->
  to_search U (a ++ c :: b) = to_search U (a ++ b).
Proof.
  intros Hc Halnum.
  change (c :: b) with ([c] ++ b).
  rewrite !to_search_concat.
  rewrite (to_search_blank U [c]); [reflexivity |].
  unfold blank_query, is_ascii; simpl.
  rewrite Halnum. destruct (N.ltb_spec c 128); [reflexivity | lia].
Qed.

Lemma to_search_skips_punctuation_witness :
  to_search latin_sample (txt "Saint" ++ 45 :: txt "Denis")
  = to_search latin_sample (txt "Saint" ++ txt "Denis").
Proof.
  refine (to_search_skips_punctuation latin_sample (txt "Saint") (txt "Denis") 45 _ _).
  - lia.
  - reflexivity.
Defined.

Lemma ascii_to_lower_facts c :
  c < 128 ->
  ascii_to_lower c < 128
  /\ ascii_alnum (ascii_to_lower c) = ascii_alnum c
  /\ ascii_to_lower (ascii_to_lower c) = ascii_to_lower c.
Proof.
  intros Hc. unfold ascii_alnum, ascii_to_lower, ascii_upper, ascii_lower,
    ascii_digit.
  destruct (N.leb_spec 65 c), (N.leb_spec c 90); simpl;
    repeat split; try lia; code_points.
Qed.

(** X4. The search key of ASCII text does not depend on the case of its
    letters: lower-casing the text first gives the same key. *)
Theorem to_search_ascii_case (U : unicode_data) (s : text) :
  ascii_text s = true -> to_search U (lower U s) = to_search U s.
Proof.
  intros H. apply ascii_text_Forall in H.
  rewrite (lower_ascii U s H).
  assert (Hlow : Forall (fun d => d < 128) (map ascii_to_lower s)).
  { induction H as [| c s Hc _ IH]; simpl; constructor; [| exact IH].
    apply (ascii_to_lower_facts c Hc). }
  rewrite !to_search_unfold.
  rewrite (to_ascii_fixed U _ Hlow), (to_ascii_fixed U _ H).
  rewrite (filter_ascii_class U _ Hlow), (filter_ascii_class U _ H).
  rewrite !lower_ascii by (apply Forall_filter_keep; assumption).
  clear Hlow. induction H as [| c s Hc _ IH]; simpl; [reflexivity |].
  destruct (ascii_to_lower_facts c Hc) as (_ & -> & Hidem).
  destruct (ascii_alnum c); simpl; [| exact IH].
  rewrite Hidem, IH. reflexivity.
Qed.

Lemma to_search_ascii_case_witness :
  to_search latin_sample (lower latin_sample (txt "New York"))
  = to_search latin_sample (txt "New York").
Proof.
  exact (to_search_ascii_case latin_sample (txt "New York") eq_refl).
Defined.

(** X5. The transliteration tables holding ASCII text only, [to_ascii]
    returns ASCII text and is idempotent. *)
Theorem to_ascii_idempotent (U : unicode_data) (value : text) :
  ascii_tables U ->
  ascii_text (to_ascii U value) = true
  /\ to_ascii U (to_ascii U value) = to_ascii U value.
Proof.
  intros HU. pose proof (to_ascii_is_ascii U value HU) as H. split.
  - unfold ascii_text, is_ascii. apply forallb_forall. intros c Hc.
    rewrite List.Forall_forall in H. apply N.ltb_lt. exact (H c Hc).
  - apply to_ascii_fixed. exact H.
Qed.

Lemma to_ascii_idempotent_witness :
  let v := txt "Stra" ++ [223] ++ txt "e" in
  ascii_text (to_ascii latin_sample v) = true
  /\ to_ascii latin_sample (to_ascii latin_sample v) = to_ascii latin_sample v.
Proof.
  intros v. exact (to_ascii_idempotent latin_sample v latin_sample_ascii).
Defined.

(** X6. The transliteration tables holding ASCII text only, a name and
    its ASCII form ([name_ascii]) have the same search key. *)
Theorem to_search_of_to_ascii (U : unicode_data) (value : text) :
  ascii_tables U -> to_search U (to_ascii U value) = to_search U value.
Proof.
  intros HU. rewrite !to_search_unfold.
  rewrite (to_ascii_fixed U (to_ascii U value)); [reflexivity |].
  apply to_ascii_is_ascii. exact HU.
Qed.

Lemma to_search_of_to_ascii_witness :
  let v := [201] ++ txt "vry" in
  to_search latin_sample (to_ascii latin_sample v) = to_search latin_sample v.
Proof.
  intros v. exact (to_search_of_to_ascii latin_sample v latin_sample_ascii).
Defined.

(** X7. In the search key of a display name the separators are gone: it
    is the search keys of the parts, one after the other. *)
Theorem to_search_display_name (U : unicode_data) (a b c : text) :
  to_search U (fmt2 a b) = to_search U a ++ to_search U b
  /\ to_search U (fmt3 a b c) = to_search U a ++ to_search U b ++ to_search U c.
Proof.
  assert (Hsep : to_search U (txt ", ") = []) by (apply to_search_blank; reflexivity).
  unfold fmt2, fmt3. split.
  - rewrite !to_search_concat, Hsep. reflexivity.
  - rewrite !to_search_concat, Hsep. reflexivity.
Qed.

(** ** Display names, continued *)

(** X8. A display name that [AbstractCity.get_display_name] returns
    starts with the name of the city and ends with the name of its
    country, which is then in the database; in between stands nothing, or
    the name of the region the city refers to. *)
Theorem city_display_name_shape (db : database) (c : City) (s : text) :
  AbstractCity.get_display_name db c = Ok s ->
  exists k,
    countries db !! city_country_id c = Some k
    /\ (s = fmt2 (city_name c) (country_name k)
        \/ exists pk r,
             city_region_id c = Some pk /\ regions db !! pk = Some r
             /\ s = fmt3 (city_name c) (region_name r) (country_name k)).
Proof.
  intros H. rewrite city_display_name_eval in H.
  destruct (city_translated c); [| discriminate H].
  destruct (countries db !! city_country_id c) as [k |]; [| discriminate H].
  destruct (country_translated k); [| discriminate H].
  exists k. split; [reflexivity |]. injection H as <-.
  destruct (truthy_id (city_region_id c)); [| left; reflexivity].
  destruct (city_region_id c) as [pk |]; [| left; reflexivity].
  destruct (regions db !! pk) as [r |] eqn:Hr; [| left; reflexivity].
  destruct (region_translated r); [| left; reflexivity].
  right. exists pk, r. auto.
Qed.

Lemma city_display_name_shape_witness :
  exists k,
    countries (france_db 11) !! city_country_id (paris (Some 11%Z)) = Some k
    /\ (txt "Paris, " ++ [206] ++ txt "le-de-France, France"
        = fmt2 (city_name (paris (Some 11%Z))) (country_name k)
        \/ exists pk r,
             city_region_id (paris (Some 11%Z)) = Some pk
             /\ regions (france_db 11) !! pk = Some r
             /\ txt "Paris, " ++ [206] ++ txt "le-de-France, France"
                = fmt3 (city_name (paris (Some 11%Z))) (region_name r)
                       (country_name k)).
Proof.
  exact (city_display_name_shape (france_db 11) (paris (Some 11%Z)) _ eq_refl).
Defined.

(** X9. The display name of a city depends on the database through the
    row of its country and the row of its region only. *)
Theorem city_display_name_frame (db db' : database) (c : City) :
  countries db !! city_country_id c = countries db' !! city_country_id c ->
  (forall pk, city_region_id c = Some pk -> regions db !! pk = regions db' !! pk) ->
  AbstractCity.get_display_name db c = AbstractCity.get_display_name db' c.
Proof.
  intros Hk Hr. rewrite !city_display_name_eval, Hk.
  destruct (city_region_id c) as [pk |]; [| reflexivity].
  rewrite (Hr pk eq_refl). reflexivity.
Qed.

Lemma city_display_name_frame_witness :
  AbstractCity.get_display_name (france_db 11) (paris (Some 11%Z))
  = AbstractCity.get_display_name france_and_bavaria (paris (Some 11%Z)).
Proof.
  apply city_display_name_frame.
  - reflexivity.
  - intros pk Hpk. injection Hpk as <-. reflexivity.
Defined.

(** X10. In a database whose foreign keys all lead somewhere and whose
    rows all have a translation in the active language, every stored
    region and every stored city has a display name. *)
Theorem display_name_of_stored_rows (db : database) :
  refs_ok db -> translations_ok db ->
  (forall pk r, regions db !! pk = Some r ->
                exists s, AbstractRegion.get_display_name db r = Ok s)
  /\ (forall pk c, cities db !! pk = Some c ->
                   exists s, AbstractCity.get_display_name db c = Ok s).
Proof.
  intros (Hrk & Hck & _) (Hkt & Hrt & Hct). split.
  - intros pk r Hr. destruct (Hrk pk r Hr) as [k Hk].
    rewrite region_display_name_eval, (Hrt pk r Hr), Hk, (Hkt _ k Hk). eauto.
  - intros pk c Hc. destruct (Hck pk c Hc) as [k Hk].
    rewrite city_display_name_eval, (Hct pk c Hc), Hk, (Hkt _ k Hk). eauto.
Qed.

Lemma paris_db_translations_ok : translations_ok paris_db.
Proof.
  unfold translations_ok, paris_db; simpl. split; [| split].
  - intros pk k. rewrite lookup_singleton_Some. intros [_ <-]. reflexivity.
  - intros pk r. rewrite lookup_singleton_Some. intros [_ <-]. reflexivity.
  - intros pk c. rewrite lookup_singleton_Some. intros [_ <-]. reflexivity.
Qed.

Lemma paris_db_refs_ok : refs_ok paris_db.
Proof.
  unfold refs_ok, paris_db; simpl. repeat split.
  - intros pk r. rewrite lookup_singleton_Some. intros [_ <-]. eexists. reflexivity.
  - intros pk c. rewrite lookup_singleton_Some. intros [_ <-]. eexists. reflexivity.
  - intros pk c rid. rewrite lookup_singleton_Some. intros [_ <-] Hrid.
    injection Hrid as <-. eexists. reflexivity.
Qed.

Lemma display_name_of_stored_rows_witness :
  (exists s, AbstractRegion.get_display_name paris_db (ile_de_france 1) = Ok s)
  /\ (exists s, AbstractCity.get_display_name paris_db (paris (Some 11%Z)) = Ok s).
Proof.
  destruct (display_name_of_stored_rows paris_db paris_db_refs_ok
                                        paris_db_translations_ok) as [Hr Hc].
  split.
  - exact (Hr 11%Z (ile_de_france 1) eq_refl).
  - exact (Hc 5%Z (paris (Some 11%Z)) eq_refl).
Defined.

(** ** String rendering, continued *)



(** ** Time zones, continued *)

(** X12. [get_timezone_info] raises exactly when the zone database knows
    neither the zone of the city nor the configured zone, and what it
    raises then is [UnknownTimeZoneError]; a zone of the city that the
    database knows is returned whatever the configured zone is. *)
Theorem get_timezone_info_failure (E : tz_env) (c : City) :
  (forall n tz, city_timezone c = Some n -> tzdb E n = Some tz ->
                get_timezone_info E c = Ok tz)
  /\ (forall e, get_timezone_info E c = Raise e ->
                e = UnknownTimeZoneError
                /\ tzdb E (TIME_ZONE E) = None
                /\ (city_timezone c = None
                    \/ exists n, city_timezone c = Some n /\ tzdb E n = None))
  /\ (tzdb E (TIME_ZONE E) = None ->
      (city_timezone c = None
       \/ exists n, city_timezone c = Some n /\ tzdb E n = None) ->
      get_timezone_info E c = Raise UnknownTimeZoneError).
Proof.
  unfold get_timezone_info, pytz_timezone. split; [| split].
  - intros n tz -> ->. reflexivity.
  - intros e. destruct (city_timezone c) as [n |]; simpl.
    + destruct (tzdb E n) eqn:Hn; simpl; [discriminate |].
      destruct (tzdb E (TIME_ZONE E)); [discriminate |].
      intros H. injection H as <-. repeat split; eauto.
    + destruct (tzdb E (TIME_ZONE E)); [discriminate |].
      intros H. injection H as <-. repeat split; eauto.
  - intros Hdef [-> | (n & -> & ->)]; simpl; rewrite Hdef; reflexivity.
Qed.

Lemma get_timezone_info_failure_witness :
  get_timezone_info broken_tz (paris None) = Ok (zone_named (txt "Europe/Paris"))
  /\ get_timezone_info broken_tz (with_timezone (paris None) None)
     = Raise UnknownTimeZoneError.
Proof.
  split.
  - refine (proj1 (get_timezone_info_failure broken_tz (paris None))
                  (txt "Europe/Paris") _ eq_refl _).
    vm_compute. reflexivity.
  - refine (proj2 (proj2 (get_timezone_info_failure broken_tz
                            (with_timezone (paris None) None))) _ _).
    + vm_compute. reflexivity.
    + left. reflexivity.
Defined.

(** ** Search, continued *)

(** X13. A query without a single ASCII letter or digit (the empty
    query, blanks, punctuation) matches every stored value. *)
Theorem search_matches_blank_query (U : unicode_data) (query stored : text) :
  blank_query query = true -> search_matches U query stored = true.
Proof.
  intros Hq.
  unfold search_matches, ToSearchIContainsLookup.holds, IContains.holds,
    ToSearchIContainsLookup.get_prep_lookup, IContains.get_prep_lookup.
  rewrite (to_search_blank U query Hq). simpl.
  destruct (lower U stored); reflexivity.
Qed.

Lemma search_matches_blank_query_witness :
  search_matches latin_sample (txt " -- ") (txt "parisfrance") = true.
Proof.
  exact (search_matches_blank_query latin_sample (txt " -- ") (txt "parisfrance")
                                    eq_refl).
Defined.

(** X14. The transliteration tables holding ASCII text only, any
    contiguous part of a name, used as the query, matches the search key
    of that name. *)
Theorem search_finds_part_of_name (U : unicode_data) (before part after : text) :
  ascii_tables U ->
  search_matches U part (to_search U (before ++ part ++ after)) = true.
Proof.
  intros HU.
  rewrite (search_matches_contains U part _ HU (to_search_is_search_key U _ HU)).
  apply contains_spec.
  exists (to_search U before), (to_search U after).
  rewrite !to_search_concat. reflexivity.
Qed.

Lemma search_finds_part_of_name_witness :
  search_matches latin_sample (txt "publique")
                 (to_search latin_sample
                    (txt "R" ++ [233] ++ txt "publique" ++ txt " Fran" ++ [231] ++ txt "aise"))
  = true.
Proof.
  exact (search_finds_part_of_name latin_sample (txt "R" ++ [233]) (txt "publique")
           (txt " Fran" ++ [231] ++ txt "aise") latin_sample_ascii).
Defined.

(** X15. The transliteration tables holding ASCII text only, the value
    that [get_prep_lookup] prepares holds none of the characters with a
    meaning in a LIKE pattern: no percent sign, no underscore, no
    backslash. *)
Theorem get_prep_lookup_no_wildcard (U : unicode_data) (value : text) :
  ascii_tables U ->
  ~ In 37 (ToSearchIContainsLookup.get_prep_lookup U value)
  /\ ~ In 95 (ToSearchIContainsLookup.get_prep_lookup U value)
  /\ ~ In 92 (ToSearchIContainsLookup.get_prep_lookup U value).
Proof.
  intros HU.
  unfold ToSearchIContainsLookup.get_prep_lookup, IContains.get_prep_lookup.
  pose proof (to_search_is_search_key U value HU) as Hkey.
  unfold is_search_key in Hkey. rewrite forallb_forall in Hkey.
  repeat split; intros Hin; specialize (Hkey _ Hin); discriminate Hkey.
Qed.

Lemma get_prep_lookup_no_wildcard_witness :
  ToSearchIContainsLookup.get_prep_lookup latin_sample (txt "100%_sure\") = txt "100sure"
  /\ ~ In 37 (ToSearchIContainsLookup.get_prep_lookup latin_sample (txt "100%_sure\")).
Proof.
  split; [reflexivity |].
  exact (proj1 (get_prep_lookup_no_wildcard latin_sample (txt "100%_sure\")
                                            latin_sample_ascii)).
Defined.

(** ** The change list, continued *)

(** X16. The hook of [CityChangeList.get_queryset] changes the parameter
    [q] only: every other parameter keeps its value, the set of
    parameters is the same, and a request without [q] is left as it is. *)
Theorem get_queryset_other_parameters (U : unicode_data) (GET : gmap string text) :
  (forall k, k <> "q"%string ->
             CityChangeList.get_queryset U GET !! k = GET !! k)
  /\ dom (CityChangeList.get_queryset U GET) = dom GET
  /\ (GET !! "q"%string = None -> CityChangeList.get_queryset U GET = GET).
Proof.
  unfold CityChangeList.get_queryset.
  destruct (GET !! "q"%string) as [q |] eqn:Hq.
  - split; [| split].
    + intros k Hk. apply lookup_insert_ne. congruence.
    + rewrite dom_insert_L.
      apply subseteq_union_1_L, singleton_subseteq_l.
      eapply elem_of_dom_2. exact Hq.
    + discriminate.
  - split; [| split]; reflexivity.
Qed.

Lemma get_queryset_other_parameters_witness :
  let GET : gmap string text :=
    <[ "q"%string := txt "Saint Denis" ]> {[ "p"%string := txt "2" ]} in
  CityChangeList.get_queryset latin_sample GET !! "p"%string = Some (txt "2")
  /\ CityChangeList.get_queryset latin_sample GET !! "q"%string
     = Some (txt "saintdenis").
Proof.
  intros GET. split.
  - refine (eq_trans (proj1 (get_queryset_other_parameters latin_sample GET)
                            "p"%string _) _).
    + discriminate.
    + reflexivity.
  - reflexivity.
Defined.

(** X17. The transliteration tables holding ASCII text only, running the
    hook a second time changes nothing. *)
Theorem get_queryset_idempotent (U : unicode_data) (GET : gmap string text) :
  ascii_tables U ->
  CityChangeList.get_queryset U (CityChangeList.get_queryset U GET)
  = CityChangeList.get_queryset U GET.
Proof.
  intros HU. unfold CityChangeList.get_queryset.
  destruct (GET !! "q"%string) as [q |] eqn:Hq.
  - rewrite lookup_insert_eq, insert_insert_eq.
    rewrite (to_search_fixed U _ (to_search_is_search_key U q HU)). reflexivity.
  - rewrite Hq. reflexivity.
Qed.

Lemma get_queryset_idempotent_witness :
  let GET : gmap string text := {[ "q"%string := [201] ++ txt "vry, France" ]} in
  CityChangeList.get_queryset latin_sample
    (CityChangeList.get_queryset latin_sample GET)
  = CityChangeList.get_queryset latin_sample GET.
Proof.
  intros GET. exact (get_queryset_idempotent latin_sample GET latin_sample_ascii).
Defined.

(** ** Deletions and runs of writes *)

(** X18. Deleting a city, a region or a country, with the cascade,
    leaves no foreign key dangling and removes the row itself. *)
Theorem cascade_keeps_references (db : database) (pk : Z) :
  refs_ok db ->
  (refs_ok (delete_city db pk) /\ cities (delete_city db pk) !! pk = None)
  /\ (refs_ok (delete_region db pk) /\ regions (delete_region db pk) !! pk = None)
  /\ (refs_ok (delete_country db pk)
      /\ countries (delete_country db pk) !! pk = None).
Proof.
  intros (Hrk & Hck & Hcr). split; [| split].
  - split; [| apply lookup_delete_eq]. unfold refs_ok, delete_city; simpl.
    split; [exact Hrk | split].
    + intros k c Hc. apply lookup_delete_Some in Hc as [_ Hc]. exact (Hck k c Hc).
    + intros k c rid Hc. apply lookup_delete_Some in Hc as [_ Hc].
      exact (Hcr k c rid Hc).
  - split; [| apply lookup_delete_eq]. unfold refs_ok, delete_region; simpl.
    split; [| split].
    + intros k r Hr. apply lookup_delete_Some in Hr as [_ Hr]. exact (Hrk k r Hr).
    + intros k c Hc. apply map_lookup_filter_Some in Hc as [Hc _].
      exact (Hck k c Hc).
    + intros k c rid Hc Hrid. apply map_lookup_filter_Some in Hc as [Hc Hkeep].
      simpl in Hkeep. unfold city_region_is in Hkeep.
      apply bool_decide_eq_false in Hkeep.
      rewrite lookup_delete_ne by congruence. exact (Hcr k c rid Hc Hrid).
  - split; [| apply lookup_delete_eq]. unfold refs_ok, delete_country; simpl.
    split; [| split].
    + intros k r Hr. apply map_lookup_filter_Some in Hr as [Hr Hkeep].
      simpl in Hkeep. rewrite lookup_delete_ne by congruence. exact (Hrk k r Hr).
    + intros k c Hc. apply map_lookup_filter_Some in Hc as [Hc Hkeep].
      simpl in Hkeep. unfold city_under_country in Hkeep.
      apply orb_false_elim in Hkeep as [Hkeep _].
      apply bool_decide_eq_false in Hkeep.
      rewrite lookup_delete_ne by congruence. exact (Hck k c Hc).
    + intros k c rid Hc Hrid. apply map_lookup_filter_Some in Hc as [Hc Hkeep].
      simpl in Hkeep. unfold city_under_country in Hkeep.
      apply orb_false_elim in Hkeep as [_ Hkeep].
      destruct (Hcr k c rid Hc Hrid) as [r Hr].
      rewrite Hrid, Hr in Hkeep. apply bool_decide_eq_false in Hkeep.
      exists r. apply map_lookup_filter_Some. split; [exact Hr | exact Hkeep].
Qed.

Lemma cascade_keeps_references_witness :
  refs_ok (delete_country paris_db 1)
  /\ countries (delete_country paris_db 1) !! 1%Z = None.
Proof.
  exact (proj2 (proj2 (cascade_keeps_references paris_db 1 paris_db_refs_ok))).
Defined.

Lemma empty_db_scoped_unique :
  region_slugs_unique empty_db /\ city_slugs_unique empty_db.
Proof.
  split.
  - intros pk1 pk2 r1 r2 H1. unfold empty_db in H1; simpl in H1.
    rewrite lookup_empty in H1. discriminate H1.
  - intros pk1 pk2 c1 c2 rid H1. unfold empty_db in H1; simpl in H1.
    rewrite lookup_empty in H1. discriminate H1.
Qed.

(** One accepted write keeps the scoped slugs apart. *)
Lemma apply_write_step slugify fuel db w db' :
  region_slugs_unique db /\ city_slugs_unique db ->
  apply_write slugify fuel db w = Some (Ok db') ->
  region_slugs_unique db' /\ city_slugs_unique db'.
Proof.
  intros [Hr Hc] Hw. destruct w as [pk c | pk r | pk c | pk | pk | pk]; simpl in Hw.
  - unfold save_country in Hw. rewrite Base_slug_pre_save in Hw.
    simpl in Hw. injection Hw as <-. split; assumption.
  - unfold save_region in Hw. rewrite Base_slug_pre_save in Hw.
    cbn -[crop_slug region_conflict] in Hw.
    match type of Hw with
    | context [region_conflict ?t ?k ?row] =>
        destruct (region_conflict t k row) eqn:Hfree
    end; [discriminate Hw |].
    injection Hw as <-. split; [| exact Hc].
    apply region_insert_unique; assumption.
  - unfold save_city in Hw. rewrite Base_slug_pre_save in Hw.
    cbn -[crop_slug city_conflict] in Hw.
    match type of Hw with
    | context [city_conflict ?t ?k ?row] =>
        destruct (city_conflict t k row) eqn:Hfree
    end; [discriminate Hw |].
    injection Hw as <-. split; [exact Hr |].
    apply city_insert_unique; assumption.
  - injection Hw as <-. split.
    + apply (region_slugs_unique_mono db); [apply map_filter_subseteq | exact Hr].
    + apply (city_slugs_unique_mono db); [apply map_filter_subseteq | exact Hc].
  - injection Hw as <-. split.
    + apply (region_slugs_unique_mono db); [apply delete_subseteq | exact Hr].
    + apply (city_slugs_unique_mono db); [apply map_filter_subseteq | exact Hc].
  - injection Hw as <-. split.
    + exact Hr.
    + apply (city_slugs_unique_mono db); [apply delete_subseteq | exact Hc].
Qed.

Lemma run_writes_unique slugify fuel ws : forall db db',
  region_slugs_unique db /\ city_slugs_unique db ->
  run_writes slugify fuel db ws = Some (Ok db') ->
  region_slugs_unique db' /\ city_slugs_unique db'.
Proof.
  induction ws as [| w ws IH]; intros db db' Hinv Hrun; simpl in Hrun.
  - injection Hrun as <-. exact Hinv.
  - destruct (apply_write slugify fuel db w) as [[db1 | e] |] eqn:Hw;
      try discriminate Hrun.
    apply (IH db1 db'); [| exact Hrun].
    exact (apply_write_step slugify fuel db w db1 Hinv Hw).
Qed.

(** X19. In every database that a run of accepted writes builds from the
    empty one, the regions of one country have distinct slugs and so have
    the cities of one region. *)
Theorem reachable_slugs_unique
        (slugify : text -> text) (fuel : nat) (ws : list write) (db : database) :
  run_writes slugify fuel empty_db ws = Some (Ok db) ->
  region_slugs_unique db /\ city_slugs_unique db.
Proof.
  intros Hrun.
  exact (run_writes_unique slugify fuel ws empty_db db empty_db_scoped_unique Hrun).
Qed.

Lemma reachable_slugs_unique_witness :
  let ws := [SaveCountry 1 france; SaveRegion 11 (ile_de_france 1);
             SaveCity 5 (paris (Some 11%Z)); SaveRegion 12 bavaria;
             DeleteRegion 12] in
  run_writes plain_slugify 5 empty_db ws = Some (Ok paris_db)
  /\ region_slugs_unique paris_db /\ city_slugs_unique paris_db.
Proof.
  intros ws.
  assert (Hrun : run_writes plain_slugify 5 empty_db ws = Some (Ok paris_db))
    by (vm_compute; reflexivity).
  split; [exact Hrun |].
  exact (reachable_slugs_unique plain_slugify 5 ws paris_db Hrun).
Defined.
